(** * SVAD - Simple Voice Activity Detector: the streaming chunk-energy matcher

    A shallow embedding of [svad.py] (class [SVAD]): the conversion of the
    reference recordings into per-chunk tolerance bands ([convert_samples]),
    the bounded window of live chunk energies kept by the main loop ([run])
    and the hit-count comparison ([compare_data]).

    Numbers.  Python integers are [Z]; loop counters that start at 0 and are
    only incremented are [nat].  Sample amplitudes and chunk energies are
    floating-point numbers in the program; here they are exact rationals [Q]
    and the arithmetic on them is unrounded.  Equality of energies is
    therefore [Qeq] ([==]) wherever a value is recomputed. *)

From Stdlib Require Import ZArith QArith Qabs Lia Lqa List Permutation.
From stdpp Require Import base option list gmap strings.

Local Open Scope Z_scope.

(** ** Exceptions *)

(** The exceptions the modelled code can raise. *)
Inductive exn : Type :=
  | ZeroDivisionError   (* [x / 0] *)
  | ValueError          (* [np.array_split] with a section count <= 0 *)
  | IndexError.         (* [list.pop(0)] on an empty list, [l[i]] out of range *)

Inductive result (A : Type) : Type :=
  | Ok (a : A)
  | Raise (e : exn).

Arguments Ok {A} a.
Arguments Raise {A} e.

Definition bind {A B : Type} (r : result A) (k : A -> result B) : result B :=
  match r with
  | Ok a => k a
  | Raise e => Raise e
  end.

Notation "'let*' x ':=' r 'in' k" := (bind r (fun x => k))
  (at level 10, x pattern, r at level 100, k at level 200).

Definition is_ok {A : Type} (r : result A) : bool :=
  match r with Ok _ => true | Raise _ => false end.

(** ** numpy and builtin operations used by the program *)

(** [np.abs] on an array. *)
Definition np_abs (a : list Q) : list Q := map Qabs a.

(** [np.sum] on an array. *)
Definition np_sum (a : list Q) : Q := foldr Qplus (0 # 1)%Q a.

(** [math.floor(a / b)] for integers [a] and [b]. *)
Definition floor_div (a b : Z) : result Z :=
  if b =? 0 then Raise ZeroDivisionError else Ok (a / b).

(** Truth value of a number in a condition: non-zero. *)
Definition truthy (x : Q) : bool := negb (Qeq_bool x (0 # 1)).

(** [l.pop(0)]: the list without its first element. *)
Definition pop0 {A : Type} (l : list A) : result (list A) :=
  match l with
  | [] => Raise IndexError
  | _ :: l' => Ok l'
  end.

(** [l[i]] for [i >= 0]. *)
Definition index {A : Type} (l : list A) (i : nat) : result A :=
  match l !! i with
  | Some x => Ok x
  | None => Raise IndexError
  end.

(** [np.array_split(ary, n)]: [n] sections, the first [len % n] of
    [len // n + 1] elements and the others of [len // n]; a section count that
    is not positive is a [ValueError]. *)
Definition section_sizes (Ntotal Nsections : nat) : list nat :=
  let Neach_section := (Ntotal / Nsections)%nat in
  let extras := (Ntotal mod Nsections)%nat in
  replicate extras (S Neach_section) ++ replicate (Nsections - extras) Neach_section.

Fixpoint split_sections {A : Type} (sizes : list nat) (ary : list A) : list (list A) :=
  match sizes with
  | [] => []
  | n :: sizes' => take n ary :: split_sections sizes' (drop n ary)
  end.

Definition array_split {A : Type} (ary : list A) (sections : Z) : result (list (list A)) :=
  if sections <=? 0 then Raise ValueError
  else Ok (split_sections (section_sizes (length ary) (Z.to_nat sections)) ary).

(** A [dict] with string keys, in insertion order: [d[k] = v] replaces the
    value of a key that is present, where it stands, and appends a new key. *)
Fixpoint dict_set {V : Type} (k : string) (v : V) (d : list (string * V)) : list (string * V) :=
  match d with
  | [] => [(k, v)]
  | (k', v') :: d' =>
      if decide (k = k') then (k', v) :: d' else (k', v') :: dict_set k v d'
  end.

(** ** Data *)

(** The per-chunk entry [{"sum": .., "pls": .., "mns": ..}]. *)
Record chunk_data : Type := {
  cd_sum : Q;
  cd_pls : Q;
  cd_mns : Q
}.

(** The fields of the [SVAD] object that the matcher reads and writes. *)
Record SVAD : Type := {
  buffer_size : Z;
  error_margin : Z;
  max_chunks : Z;
  max_chunks_pls : Q;
  max_chunks_mns : Q;
  samples_chunk_stack : list (string * gmap nat chunk_data);
  stream_chunk_stack : list Q
}.

(** The object as the class declares it, for a given configuration. *)
Definition init (buffer_size error_margin : Z) : SVAD :=
  {| buffer_size := buffer_size;
     error_margin := error_margin;
     max_chunks := 0;
     max_chunks_pls := 0 # 1;
     max_chunks_mns := 0 # 1;
     samples_chunk_stack := [];
     stream_chunk_stack := [] |}.

Definition set_max_chunks (self : SVAD) (n : Z) (p m : Q) : SVAD :=
  {| buffer_size := buffer_size self;
     error_margin := error_margin self;
     max_chunks := n;
     max_chunks_pls := p;
     max_chunks_mns := m;
     samples_chunk_stack := samples_chunk_stack self;
     stream_chunk_stack := stream_chunk_stack self |}.

Definition set_samples (self : SVAD) (d : list (string * gmap nat chunk_data)) : SVAD :=
  {| buffer_size := buffer_size self;
     error_margin := error_margin self;
     max_chunks := max_chunks self;
     max_chunks_pls := max_chunks_pls self;
     max_chunks_mns := max_chunks_mns self;
     samples_chunk_stack := d;
     stream_chunk_stack := stream_chunk_stack self |}.

Definition set_stream (self : SVAD) (s : list Q) : SVAD :=
  {| buffer_size := buffer_size self;
     error_margin := error_margin self;
     max_chunks := max_chunks self;
     max_chunks_pls := max_chunks_pls self;
     max_chunks_mns := max_chunks_mns self;
     samples_chunk_stack := samples_chunk_stack self;
     stream_chunk_stack := s |}.

(** ** [convert_samples] *)

(** The entry built from the energy [chunk_sum] of a chunk: the sum and the
    sum with the error margin added and removed. *)
Definition chunk_band (error_margin : Z) (chunk_sum : Q) : chunk_data :=
  let chunk_five := (chunk_sum * inject_Z error_margin / (100 # 1))%Q in
  {| cd_sum := chunk_sum;
     cd_pls := (chunk_sum + chunk_five)%Q;
     cd_mns := (chunk_sum - chunk_five)%Q |}.

(** The body of the inner loop: the entry of one chunk. *)
Definition chunk_entry (error_margin : Z) (chunk : list Q) : chunk_data :=
  let chunk := np_abs chunk in
  let chunk_sum := np_sum chunk in
  chunk_band error_margin chunk_sum.

(** [for chunk in chunks: ... chunks_data[i] = chunk_data; i += 1]. *)
Fixpoint chunks_loop (error_margin : Z) (chunks : list (list Q)) (i : nat)
    (chunks_data : gmap nat chunk_data) : gmap nat chunk_data :=
  match chunks with
  | [] => chunks_data
  | chunk :: chunks' =>
      chunks_loop error_margin chunks' (S i)
        (<[i := chunk_entry error_margin chunk]> chunks_data)
  end.

(** The three scalars recomputed when a new maximum is seen. *)
Definition update_max_chunks (self : SVAD) (amount_of_chunks : Z) : SVAD :=
  if amount_of_chunks >? max_chunks self then
    let max_chunks_five := (inject_Z (amount_of_chunks * error_margin self) / (100 # 1))%Q in
    set_max_chunks self amount_of_chunks
      (inject_Z amount_of_chunks + max_chunks_five)%Q
      (inject_Z amount_of_chunks - max_chunks_five)%Q
  else self.

(** The body of the outer loop, for one file [sample_file] whose decoded
    samples are [data_points].  The placeholder stored under the key before the
    file is loaded is the empty pattern. *)
Definition convert_sample (self : SVAD) (file : string * list Q) : result SVAD :=
  let '(sample_file, data_points) := file in
  let self := set_samples self (dict_set sample_file ∅ (samples_chunk_stack self)) in
  let* amount_of_chunks := floor_div (Z.of_nat (length data_points)) (buffer_size self) in
  let self := update_max_chunks self amount_of_chunks in
  let* chunks := array_split data_points amount_of_chunks in
  let chunks_data := chunks_loop (error_margin self) chunks 0%nat ∅ in
  Ok (set_samples self (dict_set sample_file chunks_data (samples_chunk_stack self))).

(** [convert_samples], on the files the glob returns, in its order. *)
Fixpoint convert_samples (self : SVAD) (sample_files : list (string * list Q)) : result SVAD :=
  match sample_files with
  | [] => Ok self
  | file :: sample_files' =>
      let* self := convert_sample self file in
      convert_samples self sample_files'
  end.

(** ** [compare_data] *)

(** A loop whose body may return: [Some v] leaves the function with [v],
    [None] goes on with the next element; running off the end returns nothing
    ([None] in Python as well). *)
Fixpoint for_return {A R : Type} (body : A -> result (option R)) (l : list A)
    : result (option R) :=
  match l with
  | [] => Ok None
  | x :: l' =>
      let* r := body x in
      match r with
      | Some v => Ok (Some v)
      | None => for_return body l'
      end
  end.

(** One round of the inner loop, on the counters [(i, chunk_match_hits)]. *)
Definition hits_step (sample_data : gmap nat chunk_data) (stream : list Q)
    (st : nat * nat) : result (nat * nat) :=
  let '(i, chunk_match_hits) := st in
  let particular_sample_chunk_data := sample_data !! i in
  let* particular_stream_chunk_data := index stream i in
  let chunk_match_hits :=
    match particular_sample_chunk_data with
    | Some d =>
        if truthy particular_stream_chunk_data then
          if Qle_bool (cd_mns d) particular_stream_chunk_data
             && Qle_bool particular_stream_chunk_data (cd_pls d)
          then S chunk_match_hits else chunk_match_hits
        else chunk_match_hits
    | None => chunk_match_hits
    end in
  Ok (S i, chunk_match_hits).

(** [for stream_sum in self.stream_chunk_stack: ...]: one round per element. *)
Fixpoint hits_loop (sample_data : gmap nat chunk_data) (stream : list Q)
    (todo : list Q) (st : nat * nat) : result (nat * nat) :=
  match todo with
  | [] => Ok st
  | _ :: todo' =>
      let* st := hits_step sample_data stream st in
      hits_loop sample_data stream todo' st
  end.

Definition chunk_match_hits (sample_data : gmap nat chunk_data) (stream : list Q)
    : result nat :=
  let* st := hits_loop sample_data stream stream (0%nat, 0%nat) in
  Ok (snd st).

(** [self.max_chunks_mns <= chunk_match_hits <= self.max_chunks_pls]. *)
Definition threshold_test (self : SVAD) (hits : nat) : bool :=
  Qle_bool (max_chunks_mns self) (inject_Z (Z.of_nat hits))
  && Qle_bool (inject_Z (Z.of_nat hits)) (max_chunks_pls self).

(** The body of the loop over the samples: both branches return. *)
Definition compare_sample (self : SVAD) (entry : string * gmap nat chunk_data)
    : result (option bool) :=
  let sample_data := snd entry in
  let* hits := chunk_match_hits sample_data (stream_chunk_stack self) in
  if threshold_test self hits then Ok (Some true) else Ok (Some false).

Definition compare_data (self : SVAD) : result (option bool) :=
  for_return (compare_sample self) (samples_chunk_stack self).

(** ** [run] *)

(** The first half of a round of the main loop: the oldest energy is dropped
    when the window holds [max_chunks] values or more, and the energy of the
    block read from the microphone is appended. *)
Definition ingest (self : SVAD) (data : list Q) : result SVAD :=
  let* stack :=
    if Z.of_nat (length (stream_chunk_stack self)) >=? max_chunks self
    then pop0 (stream_chunk_stack self)
    else Ok (stream_chunk_stack self) in
  let buffer_chunk_data := np_abs data in
  let buffer_chunk_sum := np_sum buffer_chunk_data in
  Ok (set_stream self (stack ++ [buffer_chunk_sum])).

(** How the loop ended on a finite sequence of blocks. *)
Inductive outcome : Type :=
  | MatchFound (self : SVAD)
  | StreamEnded (self : SVAD).

(** The main loop on the blocks [reads] delivered by the microphone. *)
Fixpoint run_loop (self : SVAD) (reads : list (list Q)) : result outcome :=
  match reads with
  | [] => Ok (StreamEnded self)
  | data :: reads' =>
      let* self := ingest self data in
      if Z.of_nat (length (stream_chunk_stack self)) <? max_chunks self
      then run_loop self reads'
      else
        let* verdict := compare_data self in
        match verdict with
        | Some true => Ok (MatchFound self)
        | _ => run_loop self reads'
        end
  end.

Definition run (self : SVAD) (sample_files : list (string * list Q))
    (reads : list (list Q)) : result outcome :=
  let* self := convert_samples self sample_files in
  run_loop self reads.

(** Blocks pushed one after the other, without the comparison. *)
Fixpoint ingest_all (self : SVAD) (reads : list (list Q)) : result SVAD :=
  match reads with
  | [] => Ok self
  | data :: reads' =>
      let* self := ingest self data in
      ingest_all self reads'
  end.

(** ** Derived notions used in the statements *)

(** [amount_of_chunks] of a file: [floor(len / buffer_size)]. *)
Definition amount_of (buffer_size : Z) (file : string * list Q) : Z :=
  Z.of_nat (length (snd file)) / buffer_size.

(** The largest chunk count among [files], and at least [base]. *)
Definition largest_amount (buffer_size : Z) (base : Z) (files : list (string * list Q)) : Z :=
  foldr (fun file acc => Z.max (amount_of buffer_size file) acc) base files.

(** The energies of the blocks read from the microphone. *)
Definition energies (reads : list (list Q)) : list Q :=
  map (fun data => np_sum (np_abs data)) reads.

(** The bound a pattern puts on position [i] holds for the live value [v]:
    the condition under which the inner loop of [compare_data] counts. *)
Definition hit (sample_data : gmap nat chunk_data) (i : nat) (v : Q) : bool :=
  match sample_data !! i with
  | Some d => truthy v && (Qle_bool (cd_mns d) v && Qle_bool v (cd_pls d))
  | None => false
  end.

(** The number of positions of [l], numbered from [i], that count. *)
Fixpoint count_hits (sample_data : gmap nat chunk_data) (i : nat) (l : list Q) : nat :=
  match l with
  | [] => 0%nat
  | v :: l' => ((if hit sample_data i v then 1 else 0) + count_hits sample_data (S i) l')%nat
  end.

(** Files in ascending order of chunk count (insertion sort). *)
Fixpoint insert_by_amount (buffer_size : Z) (file : string * list Q)
    (files : list (string * list Q)) : list (string * list Q) :=
  match files with
  | [] => [file]
  | file' :: files' =>
      if amount_of buffer_size file <=? amount_of buffer_size file'
      then file :: file' :: files'
      else file' :: insert_by_amount buffer_size file files'
  end.

Definition ascending (buffer_size : Z) (files : list (string * list Q))
    : list (string * list Q) :=
  foldr (insert_by_amount buffer_size) [] files.

(** The object an outcome of the main loop ends with. *)
Definition final (o : outcome) : SVAD :=
  match o with
  | MatchFound self => self
  | StreamEnded self => self
  end.

(** A file loads when the division is defined and gives at least one chunk. *)
Definition loads (buffer_size : Z) (file : string * list Q) : bool :=
  negb (buffer_size =? 0) && (0 <? amount_of buffer_size file).

(** The pattern built from the samples of a file that loads. *)
Definition pattern_of (buffer_size margin : Z) (file : string * list Q)
    : gmap nat chunk_data :=
  chunks_loop margin
    (split_sections
       (section_sizes (length (snd file)) (Z.to_nat (amount_of buffer_size file)))
       (snd file))
    0%nat ∅.

(** The two thresholds are the band around [max_chunks]. *)
Definition thresholds_ok (self : SVAD) : Prop :=
  0 <= max_chunks self
  /\ (max_chunks_pls self ==
        inject_Z (max_chunks self)
        + inject_Z (max_chunks self) * inject_Z (error_margin self) / (100 # 1))%Q
  /\ (max_chunks_mns self ==
        inject_Z (max_chunks self)
        - inject_Z (max_chunks self) * inject_Z (error_margin self) / (100 # 1))%Q.

(** A pattern of the registry: the entries of the chunks of some recording,
    at the positions 0, 1, ... *)
Definition pattern_ok (margin : Z) (p : gmap nat chunk_data) : Prop :=
  exists chunks : list (list Q), forall i, p !! i = chunk_entry margin <$> chunks !! i.

(** Two loads end alike: both fail, or both succeed with the same three
    scalars. *)
Definition same_thresholds (r1 r2 : result SVAD) : Prop :=
  match r1, r2 with
  | Ok s1, Ok s2 =>
      max_chunks s1 = max_chunks s2
      /\ max_chunks_mns s1 = max_chunks_mns s2
      /\ max_chunks_pls s1 = max_chunks_pls s2
  | Raise _, Raise _ => True
  | _, _ => False
  end.

(** A recording of two samples, loaded with a block size of 1 and a margin of
    50: two chunks, of energies 10 and 20. *)
Definition demo_file : string * list Q := ("sample-01.wav", [10 # 1; - (20 # 1)])%Q.

Definition demo_pattern : gmap nat chunk_data := pattern_of 1 50 demo_file.

Definition demo_self : SVAD :=
  set_samples (update_max_chunks (init 1 50) 2) [("sample-01.wav", demo_pattern)].

(** A recording with a silent chunk: with a block size of 2, two chunks of
    energies 0 and 2. *)
Definition silent_file : string * list Q :=
  ("sample-01.wav", [0 # 1; 0 # 1; 1 # 1; 1 # 1])%Q.

(** The centers of a pattern, in the order of its positions. *)
Definition centers (p : gmap nat chunk_data) : list Q :=
  omap (fun i => cd_sum <$> p !! i) (seq 0 (size p)).

(** The exception a file that does not load raises. *)
Definition load_error (buffer_size : Z) : exn :=
  if buffer_size =? 0 then ZeroDivisionError else ValueError.

(** The test of the main loop before it compares: the window holds
    [max_chunks] values or more. *)
Definition window_full (self : SVAD) : bool :=
  negb (Z.of_nat (length (stream_chunk_stack self)) <? max_chunks self).

(** The main loop stops in this state: the window is full and
    [compare_data] returns [True]. *)
Definition fires (self : SVAD) : bool :=
  window_full self
  && match compare_data self with
     | Ok (Some true) => true
     | _ => false
     end.

(** ** [analyze-audio.py] *)

(** One round of the loop of [main] that collects the energies to plot, on
    [(chunks_data, x_axis, i)]. *)
Definition analyze_step (st : list Q * list nat * nat) (chunk : list Q)
    : list Q * list nat * nat :=
  let '(chunks_data, x_axis, i) := st in
  let chunk := np_abs chunk in
  let chunk_sum := np_sum chunk in
  (chunks_data ++ [chunk_sum], x_axis ++ [i], S i).

(** [main], without its printing and plotting calls: the points
    [(x_axis, chunks_data)] computed from the samples of the file, for the
    block size [BUFFER_SIZE] of the configuration. *)
Definition analyze_main (BUFFER_SIZE : Z) (data_points : list Q)
    : result (list Q * list nat) :=
  let* amount_of_chunks := floor_div (Z.of_nat (length data_points)) BUFFER_SIZE in
  let* chunks := array_split data_points amount_of_chunks in
  let st := foldl analyze_step ([], [], 0%nat) chunks in
  Ok (fst (fst st), snd (fst st)).

(** ** The command line: [config.py] and [SVAD.__init__] *)

(** A setting is an integer of [config.py] or, once overwritten from the
    command line, the string given there. *)
Inductive pyval : Type :=
  | PInt (z : Z)
  | PStr (s : string).

(** The settings [__init__] reads and writes. *)
Record Args : Type := {
  a_sample_path : string;
  a_sample_rate : pyval;
  a_buffer_size : pyval;
  a_error_margin : pyval;
  a_log_level : string;
  a_verbose : bool
}.

(** The values of [config.py]. *)
Definition SAMPLE_RATE : Z := 22050.
Definition BUFFER_SIZE : Z := 1024.
Definition ERROR_MARGIN : Z := 50.
Definition LOG_LEVEL : string := "DEBUG".

(** The class attributes. *)
Definition default_args : Args :=
  {| a_sample_path := "samples";
     a_sample_rate := PInt SAMPLE_RATE;
     a_buffer_size := PInt BUFFER_SIZE;
     a_error_margin := PInt ERROR_MARGIN;
     a_log_level := LOG_LEVEL;
     a_verbose := false |}.

(** How [__init__] can end without an object: [sys.exit()], the name
    [sample_path] read where no such name is bound, a log level that is not a
    key of [log_levels]. *)
Inductive halt : Type :=
  | SystemExit
  | NameError
  | KeyError.

Inductive started (A : Type) : Type :=
  | Started (a : A)
  | Halted (h : halt).

Arguments Started {A} a.
Arguments Halted {A} h.

Definition and_then {A B : Type} (r : started A) (k : A -> started B) : started B :=
  match r with
  | Started a => k a
  | Halted h => Halted h
  end.

(** [log_levels]. *)
Definition log_levels : gmap string Z :=
  <["CRITICAL" := 50]> (<["ERROR" := 40]> (<["WARN" := 30]>
    (<["INFO" := 20]> (<["DEBUG" := 10]> (<["NOTSET" := 0]> ∅))))).

(** [str.upper] on ASCII letters; other bytes are kept. *)
Definition upper_ascii (c : Ascii.ascii) : Ascii.ascii :=
  let n := Ascii.nat_of_ascii c in
  if ((97 <=? n) && (n <=? 122))%nat then Ascii.ascii_of_nat (n - 32) else c.

Fixpoint upper (s : string) : string :=
  match s with
  | EmptyString => EmptyString
  | String c s' => String (upper_ascii c) (upper s')
  end.

(** [operator in (a, b)]. *)
Definition one_of (operator a b : string) : bool :=
  String.eqb operator a || String.eqb operator b.

Definition set_sample_path (self : Args) (v : string) : Args :=
  {| a_sample_path := v; a_sample_rate := a_sample_rate self;
     a_buffer_size := a_buffer_size self; a_error_margin := a_error_margin self;
     a_log_level := a_log_level self; a_verbose := a_verbose self |}.

Definition set_sample_rate (self : Args) (v : pyval) : Args :=
  {| a_sample_path := a_sample_path self; a_sample_rate := v;
     a_buffer_size := a_buffer_size self; a_error_margin := a_error_margin self;
     a_log_level := a_log_level self; a_verbose := a_verbose self |}.

Definition set_buffer_size (self : Args) (v : pyval) : Args :=
  {| a_sample_path := a_sample_path self; a_sample_rate := a_sample_rate self;
     a_buffer_size := v; a_error_margin := a_error_margin self;
     a_log_level := a_log_level self; a_verbose := a_verbose self |}.

Definition set_error_margin (self : Args) (v : pyval) : Args :=
  {| a_sample_path := a_sample_path self; a_sample_rate := a_sample_rate self;
     a_buffer_size := a_buffer_size self; a_error_margin := v;
     a_log_level := a_log_level self; a_verbose := a_verbose self |}.

Definition set_log_level (self : Args) (v : string) (verbose : bool) : Args :=
  {| a_sample_path := a_sample_path self; a_sample_rate := a_sample_rate self;
     a_buffer_size := a_buffer_size self; a_error_margin := a_error_margin self;
     a_log_level := v; a_verbose := verbose |}.

(** [init_logger]: the level handed to [setLevel]. *)
Definition init_logger (self : Args) : started Z :=
  match log_levels !! a_log_level self with
  | Some level => Started level
  | None => Halted KeyError
  end.

Section CommandLine.

(** The file system, as [os.path] shows it. *)
Variable isabs : string -> bool.
Variable abspath : string -> string.
Variable isdir : string -> bool.

(** The body of the loop over the options [getopt] returns. *)
Definition handle_opt (self : Args) (opt : string * string) : started Args :=
  let '(operator, argument) := opt in
  if one_of operator "-s" "--sample_path" then
    let argument := if negb (isabs argument) then abspath argument else argument in
    if isdir argument then Started (set_sample_path self argument)
    else Halted NameError
  else if one_of operator "-r" "--sample_rate" then
    Started (set_sample_rate self (PStr argument))
  else if one_of operator "-b" "--buffer-size" then
    Started (set_buffer_size self (PStr argument))
  else if one_of operator "-e" "--error_margin" then
    Started (set_error_margin self (PStr argument))
  else if one_of operator "-l" "--log_level" then
    Started (set_log_level self (upper argument) (a_verbose self))
  else if one_of operator "-v" "--verbose" then
    Started (set_log_level self "DEBUG" true)
  else if one_of operator "-h" "--help" then
    Halted SystemExit
  else Started self.

Fixpoint parse_opts (self : Args) (opts : list (string * string)) : started Args :=
  match opts with
  | [] => Started self
  | opt :: opts' => and_then (handle_opt self opt) (fun self => parse_opts self opts')
  end.

(** [__init__] on the options [getopt] returns, up to the logger. *)
Definition init_args (opts : list (string * string)) : started Args :=
  let self := default_args in
  let self :=
    if negb (isabs (a_sample_path self))
    then set_sample_path self (abspath (a_sample_path self))
    else self in
  and_then (parse_opts self opts) (fun self =>
  and_then (init_logger self) (fun _ =>
  Started self)).

End CommandLine.

(** ** Loading with the settings as [__init__] leaves them *)

(** The exceptions of the loading code when a setting may be a string:
    those of [exn], and [TypeError] for an integer divided by a string. *)
Inductive texn : Type :=
  | Std (e : exn)
  | TypeError.

Inductive tresult (A : Type) : Type :=
  | TOk (a : A)
  | TRaise (e : texn).

Arguments TOk {A} a.
Arguments TRaise {A} e.

Definition tbind {A B : Type} (r : tresult A) (k : A -> tresult B) : tresult B :=
  match r with
  | TOk a => k a
  | TRaise e => TRaise e
  end.

Notation "'let+' x ':=' r 'in' k" := (tbind r (fun x => k))
  (at level 10, x pattern, r at level 100, k at level 200).

Definition lift {A : Type} (r : result A) : tresult A :=
  match r with
  | Ok a => TOk a
  | Raise e => TRaise (Std e)
  end.

(** The object with its settings as [__init__] leaves them. *)
Record TSVAD : Type := {
  t_args : Args;
  t_max_chunks : Z;
  t_max_chunks_pls : Q;
  t_max_chunks_mns : Q;
  t_samples_chunk_stack : list (string * gmap nat chunk_data);
  t_stream_chunk_stack : list Q
}.

Definition t_init (args : Args) : TSVAD :=
  {| t_args := args;
     t_max_chunks := 0;
     t_max_chunks_pls := 0 # 1;
     t_max_chunks_mns := 0 # 1;
     t_samples_chunk_stack := [];
     t_stream_chunk_stack := [] |}.

Definition t_set_max_chunks (self : TSVAD) (n : Z) (p m : Q) : TSVAD :=
  {| t_args := t_args self;
     t_max_chunks := n;
     t_max_chunks_pls := p;
     t_max_chunks_mns := m;
     t_samples_chunk_stack := t_samples_chunk_stack self;
     t_stream_chunk_stack := t_stream_chunk_stack self |}.

Definition t_set_samples (self : TSVAD) (d : list (string * gmap nat chunk_data)) : TSVAD :=
  {| t_args := t_args self;
     t_max_chunks := t_max_chunks self;
     t_max_chunks_pls := t_max_chunks_pls self;
     t_max_chunks_mns := t_max_chunks_mns self;
     t_samples_chunk_stack := d;
     t_stream_chunk_stack := t_stream_chunk_stack self |}.


(** [math.floor(len / self.buffer_size)]: an integer cannot be divided by a
    string. *)
Definition py_len_div (len : Z) (buffer_size : pyval) : tresult Z :=
  match buffer_size with
  | PInt z => lift (floor_div len z)
  | PStr _ => TRaise TypeError
  end.

Section TypedLoading.

(** [int(s)] for a string [s]: the number it spells, if it spells one. *)
Variable int_of_str : string -> option Z.

(** [int(v)]. *)
Definition py_int (v : pyval) : tresult Z :=
  match v with
  | PInt z => TOk z
  | PStr s =>
      match int_of_str s with
      | Some z => TOk z
      | None => TRaise (Std ValueError)
      end
  end.

(** The inner loop of [convert_samples]; [int(self.error_margin)] is
    evaluated for every chunk. *)
Fixpoint chunks_loop_t (error_margin : pyval) (chunks : list (list Q)) (i : nat)
    (chunks_data : gmap nat chunk_data) : tresult (gmap nat chunk_data) :=
  match chunks with
  | [] => TOk chunks_data
  | chunk :: chunks' =>
      let chunk := np_abs chunk in
      let chunk_sum := np_sum chunk in
      let+ margin := py_int error_margin in
      chunks_loop_t error_margin chunks' (S i)
        (<[i := chunk_band margin chunk_sum]> chunks_data)
  end.

Definition update_max_chunks_t (self : TSVAD) (amount_of_chunks : Z) : tresult TSVAD :=
  if amount_of_chunks >? t_max_chunks self then
    let+ margin := py_int (a_error_margin (t_args self)) in
    let max_chunks_five := (inject_Z (amount_of_chunks * margin) / (100 # 1))%Q in
    TOk (t_set_max_chunks self amount_of_chunks
           (inject_Z amount_of_chunks + max_chunks_five)%Q
           (inject_Z amount_of_chunks - max_chunks_five)%Q)
  else TOk self.

Definition convert_sample_t (self : TSVAD) (file : string * list Q) : tresult TSVAD :=
  let '(sample_file, data_points) := file in
  let self := t_set_samples self (dict_set sample_file ∅ (t_samples_chunk_stack self)) in
  let+ amount_of_chunks :=
    py_len_div (Z.of_nat (length data_points)) (a_buffer_size (t_args self)) in
  let+ self := update_max_chunks_t self amount_of_chunks in
  let+ chunks := lift (array_split data_points amount_of_chunks) in
  let+ chunks_data :=
    chunks_loop_t (a_error_margin (t_args self)) chunks 0%nat ∅ in
  TOk (t_set_samples self (dict_set sample_file chunks_data (t_samples_chunk_stack self))).

Fixpoint convert_samples_t (self : TSVAD) (sample_files : list (string * list Q))
    : tresult TSVAD :=
  match sample_files with
  | [] => TOk self
  | file :: sample_files' =>
      let+ self := convert_sample_t self file in
      convert_samples_t self sample_files'
  end.

End TypedLoading.

(** A path as [__init__] keeps it: made absolute when it is not. *)
Definition resolved (isabs : string -> bool) (abspath : string -> string)
    (path : string) : string :=
  if negb (isabs path) then abspath path else path.

(** * Properties *)

(** ** The chunker *)

Section Chunker.

Context {A : Type}.

Lemma sum_section_sizes (L n : nat) :
  (0 < n)%nat -> sum_list (section_sizes L n) = L.
Proof.
  intros Hn. unfold section_sizes.
  rewrite sum_list_with_app, !sum_list_replicate.
  pose proof (Nat.div_mod_eq L n) as Hdiv.
  pose proof (Nat.mod_upper_bound L n ltac:(lia)) as Hlt.
  nia.
Qed.

Lemma length_section_sizes (L n : nat) :
  (0 < n)%nat -> length (section_sizes L n) = n.
Proof.
  intros Hn. unfold section_sizes.
  rewrite length_app, !length_replicate.
  pose proof (Nat.mod_upper_bound L n ltac:(lia)). lia.
Qed.

Lemma elem_of_section_sizes (L n s : nat) :
  s ∈ section_sizes L n -> s = (L / n)%nat \/ s = S (L / n).
Proof.
  unfold section_sizes. rewrite elem_of_app.
  intros [H | H]; apply elem_of_replicate_inv in H; auto.
Qed.

Lemma length_split_sections (sizes : list nat) (ary : list A) :
  length (split_sections sizes ary) = length sizes.
Proof.
  revert ary. induction sizes as [|n sizes IH]; intros ary; simpl; [done|].
  by rewrite IH.
Qed.

Lemma concat_split_sections (sizes : list nat) (ary : list A) :
  sum_list sizes = length ary ->
  concat (split_sections sizes ary) = ary.
Proof.
  revert ary. induction sizes as [|n sizes IH]; intros ary Hsum; simpl in *.
  - symmetry. by apply nil_length_inv.
  - rewrite IH; [apply take_drop|]. rewrite length_drop. lia.
Qed.

Lemma lengths_split_sections (sizes : list nat) (ary : list A) :
  sum_list sizes = length ary ->
  map length (split_sections sizes ary) = sizes.
Proof.
  revert ary. induction sizes as [|n sizes IH]; intros ary Hsum; simpl in *; [done|].
  rewrite IH by (rewrite length_drop; lia).
  f_equal. rewrite length_take. lia.
Qed.

(** What [np.array_split] returns for a positive section count. *)
Lemma array_split_ok (ary : list A) (n : Z) :
  0 < n ->
  exists chunks,
    array_split ary n = Ok chunks
    /\ length chunks = Z.to_nat n
    /\ concat chunks = ary
    /\ map length chunks = section_sizes (length ary) (Z.to_nat n).
Proof.
  intros Hn. unfold array_split.
  destruct (n <=? 0) eqn:E; [lia|].
  assert (Hpos : (0 < Z.to_nat n)%nat) by lia.
  pose proof (sum_section_sizes (length ary) _ Hpos) as Hsum.
  eexists; split; [reflexivity|].
  split; [|split].
  - by rewrite length_split_sections, length_section_sizes.
  - by apply concat_split_sections.
  - by apply lengths_split_sections.
Qed.

End Chunker.

(** The entries the inner loop of [convert_samples] leaves in [chunks_data]. *)
Lemma lookup_chunks_loop (margin : Z) (chunks : list (list Q)) (i : nat)
    (acc : gmap nat chunk_data) (j : nat) :
  chunks_loop margin chunks i acc !! j =
    if decide (i <= j < i + length chunks)%nat
    then chunk_entry margin <$> chunks !! (j - i)%nat
    else acc !! j.
Proof.
  revert i acc. induction chunks as [|c chunks IH]; intros i acc; simpl.
  - case_decide; [lia|done].
  - rewrite IH. destruct (decide (j = i)) as [->|Hne].
    + rewrite decide_False by lia. rewrite decide_True by lia.
      rewrite lookup_insert_eq. by rewrite Nat.sub_diag.
    + rewrite lookup_insert_ne by done.
      destruct (decide (S i <= j < S i + length chunks)%nat) as [Hin|Hout].
      * rewrite decide_True by lia.
        replace (j - i)%nat with (S (j - S i)) by lia. done.
      * rewrite decide_False by lia. done.
Qed.

Lemma lookup_chunks_data (margin : Z) (chunks : list (list Q)) (j : nat) :
  chunks_loop margin chunks 0 ∅ !! j = chunk_entry margin <$> chunks !! j.
Proof.
  rewrite lookup_chunks_loop. case_decide as Hj.
  - by rewrite Nat.sub_0_r.
  - rewrite lookup_empty. symmetry.
    rewrite (lookup_ge_None_2 chunks j) by lia. done.
Qed.

Lemma np_sum_abs_nonneg (chunk : list Q) : (0 <= np_sum (np_abs chunk))%Q.
Proof.
  induction chunk as [|x chunk IH]; simpl; [apply Qle_refl|].
  pose proof (Qabs_nonneg x). fold (np_abs chunk). fold (np_sum (np_abs chunk)). lra.
Qed.

Lemma np_sum_abs_foldr (chunk : list Q) :
  np_sum (np_abs chunk) = foldr (fun x acc => (Qabs x + acc)%Q) (0 # 1)%Q chunk.
Proof. induction chunk as [|x chunk IH]; simpl; [done|]. by rewrite <- IH. Qed.

(** C4. The chunker: for a sample sequence of length L and a chunk count n
    with 1 <= n <= L, [np.array_split] returns exactly n contiguous sections
    (their concatenation is the sequence), whose lengths sum to L and differ
    pairwise by at most one; and the entry stored for each section holds, as
    its energy, the sum of the absolute values of the section's samples. *)
Theorem chunking_exactness (data_points : list Q) (n margin : Z) :
  1 <= n <= Z.of_nat (length data_points) ->
  exists chunks,
    array_split data_points n = Ok chunks
    /\ length chunks = Z.to_nat n
    /\ concat chunks = data_points
    /\ sum_list (map length chunks) = length data_points
    /\ (forall c1 c2, c1 ∈ chunks -> c2 ∈ chunks -> (length c1 <= S (length c2))%nat)
    /\ (forall i chunk, chunks !! i = Some chunk ->
          exists d, chunks_loop margin chunks 0 ∅ !! i = Some d
            /\ cd_sum d = foldr (fun x acc => (Qabs x + acc)%Q) (0 # 1)%Q chunk)
    /\ (forall i, (Z.to_nat n <= i)%nat -> chunks_loop margin chunks 0 ∅ !! i = None).
Proof.
  intros [Hn HL].
  destruct (array_split_ok data_points n ltac:(lia)) as (chunks & Hsplit & Hlen & Hcat & Hsizes).
  exists chunks. repeat split; try done.
  - rewrite Hsizes. apply sum_section_sizes. lia.
  - intros c1 c2 H1 H2.
    assert (Hs : forall c, c ∈ chunks -> length c ∈ section_sizes (length data_points) (Z.to_nat n)).
    { intros c Hc. rewrite <- Hsizes. by apply (list_elem_of_fmap_2 length). }
    apply Hs, elem_of_section_sizes in H1. apply Hs, elem_of_section_sizes in H2. lia.
  - intros i chunk Hi. exists (chunk_entry margin chunk). split.
    + by rewrite lookup_chunks_data, Hi.
    + apply np_sum_abs_foldr.
  - intros i Hi. rewrite lookup_chunks_data.
    rewrite (lookup_ge_None_2 chunks i) by lia. done.
Qed.

Lemma chunking_exactness_witness :
  exists chunks,
    array_split (map inject_Z [3; -1; 4; 1; -5; 9; 2]) 3 = Ok chunks
    /\ length chunks = 3%nat
    /\ concat chunks = map inject_Z [3; -1; 4; 1; -5; 9; 2].
Proof.
  destruct (chunking_exactness (map inject_Z [3; -1; 4; 1; -5; 9; 2]) 3 50)
    as (chunks & H1 & H2 & H3 & _).
  - simpl. lia.
  - exists chunks. auto.
Defined.

(** ** Tolerance bands *)

Lemma margin_share_nonneg (x : Q) (margin : Z) :
  (0 <= x)%Q -> 0 <= margin -> (0 <= x * inject_Z margin / (100 # 1))%Q.
Proof.
  intros Hx Hm. unfold Qdiv.
  apply Qmult_le_0_compat; [apply Qmult_le_0_compat; [done|]|by compute].
  unfold Qle, inject_Z. simpl. lia.
Qed.

(** C5. For a chunk energy center >= 0 and a margin in [0,100], the band
    built around it has lower <= center <= upper, with
    lower = center * (1 - margin/100) and upper = center * (1 + margin/100);
    with margin = 0 the three coincide. *)
Theorem band_monotonicity (center : Q) (margin : Z) :
  (0 <= center)%Q ->
  0 <= margin <= 100 ->
  let band := chunk_band margin center in
  (cd_sum band = center
   /\ cd_mns band <= center /\ center <= cd_pls band
   /\ cd_mns band == center * (1 - inject_Z margin / (100 # 1))
   /\ cd_pls band == center * (1 + inject_Z margin / (100 # 1))
   /\ (margin = 0%Z -> cd_mns band == center /\ cd_pls band == center))%Q.
Proof.
  intros Hc [Hm _]. simpl.
  pose proof (margin_share_nonneg center margin Hc Hm) as Hfive.
  repeat split.
  - lra.
  - lra.
  - unfold Qdiv. ring.
  - unfold Qdiv. ring.
  - subst margin. unfold Qdiv, inject_Z. ring.
  - subst margin. unfold Qdiv, inject_Z. ring.
Qed.

Lemma band_monotonicity_witness :
  (cd_mns (chunk_band 50 (20 # 1)) <= 20 # 1
   /\ 20 # 1 <= cd_pls (chunk_band 50 (20 # 1)))%Q.
Proof.
  destruct (band_monotonicity (20 # 1) 50) as (_ & H1 & H2 & _).
  - unfold Qle. simpl. lia.
  - lia.
  - split; assumption.
Defined.

(** ** The streaming window *)

Lemma ingest_stream (self : SVAD) (data : list Q) :
  1 <= max_chunks self ->
  Z.of_nat (length (stream_chunk_stack self)) <= max_chunks self ->
  exists self',
    ingest self data = Ok self'
    /\ max_chunks self' = max_chunks self
    /\ stream_chunk_stack self' =
         drop (length (stream_chunk_stack self) + 1 - Z.to_nat (max_chunks self))
              (stream_chunk_stack self ++ [np_sum (np_abs data)]).
Proof.
  intros Hc Hlen. unfold ingest.
  destruct (Z.of_nat (length (stream_chunk_stack self)) >=? max_chunks self) eqn:E.
  - assert (Hfull : length (stream_chunk_stack self) = Z.to_nat (max_chunks self)) by lia.
    destruct (stream_chunk_stack self) as [|x s] eqn:Es; simpl in *; [lia|].
    eexists; split; [reflexivity|]. split; [done|]. simpl.
    replace (S (length s + 1) - Z.to_nat (max_chunks self))%nat with 1%nat by lia.
    done.
  - simpl. eexists; split; [reflexivity|]. split; [done|]. simpl.
    replace (length (stream_chunk_stack self) + 1 - Z.to_nat (max_chunks self))%nat
      with 0%nat by lia.
    done.
Qed.

Lemma ingest_all_stream (reads : list (list Q)) (self : SVAD) :
  1 <= max_chunks self ->
  Z.of_nat (length (stream_chunk_stack self)) <= max_chunks self ->
  exists self',
    ingest_all self reads = Ok self'
    /\ max_chunks self' = max_chunks self
    /\ stream_chunk_stack self' =
         drop (length (stream_chunk_stack self) + length reads - Z.to_nat (max_chunks self))
              (stream_chunk_stack self ++ energies reads).
Proof.
  revert self. induction reads as [|data reads IH]; intros self Hc Hlen; simpl.
  - exists self. split; [done|]. split; [done|].
    rewrite app_nil_r.
    replace (length (stream_chunk_stack self) + 0 - Z.to_nat (max_chunks self))%nat
      with 0%nat by lia.
    done.
  - destruct (ingest_stream self data Hc Hlen) as (self1 & Hing & Hmc & Hs1).
    rewrite Hing. simpl.
    assert (Hlen1 : Z.of_nat (length (stream_chunk_stack self1)) <= max_chunks self1).
    { rewrite Hs1, Hmc, length_drop, length_app. simpl. lia. }
    destruct (IH self1 ltac:(lia) Hlen1) as (self' & Hall & Hmc' & Hs').
    exists self'. split; [done|]. split; [lia|].
    rewrite Hs', Hmc, Hs1. rewrite length_drop, length_app. simpl.
    set (s := stream_chunk_stack self). set (c := Z.to_nat (max_chunks self)).
    set (e := np_sum (np_abs data)).
    assert (Hsc : (length s <= c)%nat) by (unfold s, c; lia).
    destruct (decide (length s = c)) as [Hfull|Hroom].
    + replace (length s + 1 - c)%nat with 1%nat by lia.
      replace (length s + 1 - 1 + length reads - c)%nat with (length reads) by lia.
      replace (length s + S (length reads) - c)%nat with (1 + length reads)%nat by lia.
      rewrite <- (drop_drop _ (length reads) 1). f_equal.
      rewrite <- drop_app_le by (rewrite length_app; simpl; lia).
      by rewrite <- (assoc_L (++)).
    + replace (length s + 1 - c)%nat with 0%nat by lia.
      rewrite drop_0, <- (assoc_L (++)). simpl. f_equal. lia.
Qed.

(** The window the main loop ends with is the one left by pushing the
    blocks it has read, whether it stopped on a match or at the end of the
    blocks. *)
Lemma run_loop_window (reads : list (list Q)) (self : SVAD) (o : outcome) :
  run_loop self reads = Ok o ->
  exists n, ingest_all self (take n reads) = Ok (final o).
Proof.
  revert self. induction reads as [|data reads IH]; intros self Hrun; simpl in Hrun.
  - injection Hrun as <-. by exists 0%nat.
  - destruct (ingest self data) as [self1|e] eqn:Hing; simpl in Hrun; [|done].
    assert (Hnext : run_loop self1 reads = Ok o ->
                    exists n, ingest_all self (take n (data :: reads)) = Ok (final o)).
    { intros Hrest. destruct (IH self1 Hrest) as [n Hn].
      exists (S n). simpl. by rewrite Hing. }
    destruct (Z.of_nat (length (stream_chunk_stack self1)) <? max_chunks self1); [auto|].
    destruct (compare_data self1) as [[[|]|]|e]; simpl in Hrun; auto; [|done].
    injection Hrun as <-. exists 1%nat. simpl. by rewrite Hing.
Qed.

(** C3. With a capacity c >= 1, after k >= c blocks have been pushed into an
    empty window, the window holds the energies of the c most recent blocks in
    their order: position 0 holds the energy of block k-c+1 (index k-c from 0)
    and position c-1 that of block k (index k-1). *)
Theorem window_fifo (self : SVAD) (reads : list (list Q)) :
  let c := Z.to_nat (max_chunks self) in
  let k := length reads in
  1 <= max_chunks self ->
  stream_chunk_stack self = [] ->
  (c <= k)%nat ->
  exists self',
    ingest_all self reads = Ok self'
    /\ stream_chunk_stack self' = drop (k - c) (energies reads)
    /\ length (stream_chunk_stack self') = c
    /\ stream_chunk_stack self' !! 0%nat = energies reads !! (k - c)%nat
    /\ stream_chunk_stack self' !! (c - 1)%nat = energies reads !! (k - 1)%nat.
Proof.
  intros c k Hc Hempty Hk.
  destruct (ingest_all_stream reads self Hc) as (self' & Hall & _ & Hs).
  { rewrite Hempty. simpl. lia. }
  rewrite Hempty in Hs. simpl in Hs. fold c k in Hs.
  assert (Hlen : length (energies reads) = k) by (unfold energies; by rewrite length_map).
  exists self'. split; [done|]. split; [done|]. rewrite Hs.
  split; [rewrite length_drop; lia|].
  rewrite !lookup_drop. split; f_equal; lia.
Qed.

Lemma window_fifo_witness :
  exists self',
    ingest_all (set_max_chunks (init 1 50) 2 (3 # 1) (1 # 1))
      [[1 # 1]; [2 # 1]; [3 # 1]] = Ok self'
    /\ stream_chunk_stack self' = energies [[2 # 1]; [3 # 1]].
Proof.
  destruct (window_fifo (set_max_chunks (init 1 50) 2 (3 # 1) (1 # 1))
              [[1 # 1]; [2 # 1]; [3 # 1]]) as (self' & H1 & H2 & _).
  - simpl. lia.
  - reflexivity.
  - simpl. lia.
  - exists self'. split; [exact H1|exact H2].
Defined.

(** ** The matcher: counting hits *)

Lemma hits_step_hit (sample_data : gmap nat chunk_data) (stream : list Q)
    (i h : nat) (v : Q) :
  stream !! i = Some v ->
  hits_step sample_data stream (i, h)
    = Ok (S i, ((if hit sample_data i v then 1 else 0) + h)%nat).
Proof.
  intros Hv. unfold hits_step, index, hit. rewrite Hv. simpl.
  destruct (sample_data !! i) as [d|]; [|done].
  destruct (truthy v); [|done]. simpl.
  by destruct (Qle_bool (cd_mns d) v && Qle_bool v (cd_pls d)).
Qed.

(** The inner loop never fails: each index it reads is within the window. *)
Lemma hits_loop_count (sample_data : gmap nat chunk_data) (stream : list Q) :
  forall (todo done_ : list Q) (h : nat),
    stream = done_ ++ todo ->
    hits_loop sample_data stream todo (length done_, h)
      = Ok (length stream, (h + count_hits sample_data (length done_) todo)%nat).
Proof.
  induction todo as [|v todo IH]; intros done_ h Hs; cbn [hits_loop count_hits].
  - subst stream. rewrite app_nil_r. do 2 f_equal. lia.
  - rewrite (hits_step_hit _ _ _ _ v) by (subst stream; by apply list_lookup_middle).
    cbn [bind].
    specialize (IH (done_ ++ [v]) ((if hit sample_data (length done_) v then 1 else 0) + h)%nat).
    rewrite length_app in IH. simpl in IH.
    replace (length done_ + 1)%nat with (S (length done_)) in IH by lia.
    rewrite IH by (subst stream; by rewrite <- (assoc_L (++))).
    do 2 f_equal. lia.
Qed.

Lemma chunk_match_hits_count (sample_data : gmap nat chunk_data) (stream : list Q) :
  chunk_match_hits sample_data stream = Ok (count_hits sample_data 0 stream).
Proof.
  unfold chunk_match_hits.
  change (0%nat, 0%nat) with (length (@nil Q), 0%nat).
  by rewrite (hits_loop_count sample_data stream stream [] 0%nat).
Qed.

Lemma compare_data_first (self : SVAD) (entry : string * gmap nat chunk_data)
    (rest : list (string * gmap nat chunk_data)) :
  samples_chunk_stack self = entry :: rest ->
  compare_data self
    = Ok (Some (threshold_test self (count_hits (snd entry) 0 (stream_chunk_stack self)))).
Proof.
  intros Hreg. unfold compare_data. rewrite Hreg. simpl.
  unfold compare_sample. rewrite chunk_match_hits_count. simpl.
  by destruct (threshold_test self _).
Qed.

Lemma truthy_zero (v : Q) : (v == 0)%Q -> truthy v = false.
Proof.
  intros Hv. unfold truthy. apply negb_false_iff. by apply Qeq_bool_iff.
Qed.

Lemma hit_zero (sample_data : gmap nat chunk_data) (i : nat) (v : Q) :
  (v == 0)%Q -> hit sample_data i v = false.
Proof.
  intros Hv. unfold hit. destruct (sample_data !! i); [|done].
  by rewrite truthy_zero.
Qed.

Lemma count_hits_truthy (sample_data : gmap nat chunk_data) (l : list Q) (i : nat) :
  (count_hits sample_data i l <= length (List.filter truthy l))%nat.
Proof.
  revert i. induction l as [|v l IH]; intros i; simpl; [done|].
  specialize (IH (S i)). unfold hit.
  destruct (sample_data !! i) as [d|]; destruct (truthy v); simpl; try lia.
  destruct (Qle_bool (cd_mns d) v && Qle_bool v (cd_pls d)); lia.
Qed.

Lemma count_hits_silence (sample_data : gmap nat chunk_data) (l : list Q) (i : nat) :
  Forall (fun v => (v == 0)%Q) l -> count_hits sample_data i l = 0%nat.
Proof.
  intros Hl. revert i. induction Hl as [|v l Hv Hl IH]; intros i; simpl; [done|].
  by rewrite hit_zero, IH.
Qed.

Lemma count_hits_all (sample_data : gmap nat chunk_data) (l : list Q) (i : nat) :
  (forall j v, l !! j = Some v -> hit sample_data (i + j) v = true) ->
  count_hits sample_data i l = length l.
Proof.
  revert i. induction l as [|v l IH]; intros i Hall; simpl; [done|].
  pose proof (Hall 0%nat v eq_refl) as H0. rewrite Nat.add_0_r in H0. rewrite H0.
  rewrite IH; [done|].
  intros j w Hj. replace (S i + j)%nat with (i + S j)%nat by lia. by apply Hall.
Qed.

(** C1. With at least one pattern in the registry, the hit count is computed
    for the first registered pattern only and its verdict is returned at once:
    the result is the threshold test on the hits of the first pattern, and it
    is the same whatever patterns follow the first one.  This holds for every
    window, full or not. *)
Theorem first_pattern_decides (self : SVAD) (name : string)
    (p : gmap nat chunk_data) (rest : list (string * gmap nat chunk_data)) :
  samples_chunk_stack self = (name, p) :: rest ->
  exists hits,
    chunk_match_hits p (stream_chunk_stack self) = Ok hits
    /\ compare_data self = Ok (Some (threshold_test self hits))
    /\ forall rest',
         compare_data (set_samples self ((name, p) :: rest')) = compare_data self.
Proof.
  intros Hreg. exists (count_hits p 0 (stream_chunk_stack self)).
  split; [apply chunk_match_hits_count|].
  split; [by rewrite (compare_data_first self (name, p) rest)|].
  intros rest'.
  rewrite (compare_data_first self (name, p) rest) by done.
  by rewrite (compare_data_first _ (name, p) rest').
Qed.

(** C10. A live chunk whose energy is 0 is never counted as a hit, whatever
    the band at its position, also when the band contains 0: a round of the
    inner loop on a zero entry leaves the hit counter as it is, so the hit
    count is at most the number of non-zero entries of the window. *)
Theorem zero_chunk_never_hits (p : gmap nat chunk_data) (w : list Q) :
  (forall i h v, w !! i = Some v -> (v == 0)%Q ->
     hits_step p w (i, h) = Ok (S i, h))
  /\ exists hits,
       chunk_match_hits p w = Ok hits
       /\ (hits <= length (List.filter truthy w))%nat.
Proof.
  split.
  - intros i h v Hi Hv. rewrite (hits_step_hit p w i h v Hi).
    by rewrite hit_zero.
  - exists (count_hits p 0 w). split; [apply chunk_match_hits_count|].
    apply count_hits_truthy.
Qed.

(** ** The registry: what [convert_samples] leaves in the object *)

Lemma convert_sample_loads (self : SVAD) (file : string * list Q) :
  loads (buffer_size self) file = true ->
  convert_sample self file =
    Ok (set_samples (update_max_chunks self (amount_of (buffer_size self) file))
          (dict_set (fst file) (pattern_of (buffer_size self) (error_margin self) file)
             (dict_set (fst file) ∅ (samples_chunk_stack self)))).
Proof.
  destruct file as [name data]. unfold loads, amount_of, pattern_of. simpl.
  intros [Hbs Ha]%andb_true_iff.
  unfold convert_sample, floor_div. simpl.
  destruct (buffer_size self =? 0) eqn:E; [done|]. simpl.
  unfold array_split.
  destruct (Z.of_nat (length data) / buffer_size self <=? 0) eqn:E'; [lia|]. simpl.
  unfold update_max_chunks, amount_of. simpl.
  by destruct (Z.of_nat (length data) / buffer_size self >? max_chunks self).
Qed.

Lemma convert_sample_fails (self : SVAD) (file : string * list Q) :
  loads (buffer_size self) file = false ->
  exists e, convert_sample self file = Raise e.
Proof.
  destruct file as [name data]. unfold loads, amount_of. simpl. intros Hl.
  unfold convert_sample, floor_div. simpl.
  destruct (buffer_size self =? 0) eqn:E; [by eexists|]. simpl in *.
  unfold array_split.
  destruct (Z.of_nat (length data) / buffer_size self <=? 0) eqn:E'; [by eexists|lia].
Qed.

Lemma update_max_chunks_twice (self : SVAD) (a b : Z) :
  update_max_chunks (update_max_chunks self a) b = update_max_chunks self (Z.max a b).
Proof.
  unfold update_max_chunks.
  destruct (a >? max_chunks self) eqn:Ea; simpl.
  - destruct (b >? a) eqn:Eb.
    + replace (Z.max a b) with b by lia.
      destruct (b >? max_chunks self) eqn:Eb'; [done|lia].
    + replace (Z.max a b) with a by lia. by rewrite Ea.
  - destruct (b >? max_chunks self) eqn:Eb.
    + replace (Z.max a b) with b by lia. by rewrite Eb.
    + destruct (Z.max a b >? max_chunks self) eqn:Em; [lia|done].
Qed.

Lemma update_max_chunks_set_samples (self : SVAD) (a : Z)
    (d : list (string * gmap nat chunk_data)) :
  update_max_chunks (set_samples self d) a = set_samples (update_max_chunks self a) d.
Proof. unfold update_max_chunks. simpl. by destruct (a >? max_chunks self). Qed.

Lemma max_chunks_update (self : SVAD) (a : Z) :
  max_chunks (update_max_chunks self a) = Z.max (max_chunks self) a.
Proof.
  unfold update_max_chunks. destruct (a >? max_chunks self) eqn:E; simpl; lia.
Qed.

Lemma config_update (self : SVAD) (a : Z) :
  buffer_size (update_max_chunks self a) = buffer_size self
  /\ error_margin (update_max_chunks self a) = error_margin self
  /\ samples_chunk_stack (update_max_chunks self a) = samples_chunk_stack self
  /\ stream_chunk_stack (update_max_chunks self a) = stream_chunk_stack self.
Proof. unfold update_max_chunks. by destruct (a >? max_chunks self). Qed.

Lemma largest_amount_base (bs a b : Z) (files : list (string * list Q)) :
  largest_amount bs (Z.max b a) files = Z.max a (largest_amount bs b files).
Proof. induction files as [|f files IH]; simpl; lia. Qed.

Lemma largest_amount_ge (bs b : Z) (files : list (string * list Q)) :
  b <= largest_amount bs b files.
Proof. induction files as [|f files IH]; simpl; lia. Qed.

Lemma largest_amount_perm (bs b : Z) (files files' : list (string * list Q)) :
  files ≡ₚ files' -> largest_amount bs b files = largest_amount bs b files'.
Proof. induction 1; simpl; lia. Qed.

(** The result of loading: every file loads, the three scalars are those of
    one update with the largest chunk count, and nothing else of the
    configuration or of the window changes. *)
Lemma convert_samples_ok (files : list (string * list Q)) (self self' : SVAD) :
  convert_samples self files = Ok self' ->
  Forall (fun file => loads (buffer_size self) file = true) files
  /\ exists d,
       self' = set_samples
                 (update_max_chunks self
                    (largest_amount (buffer_size self) (max_chunks self) files)) d.
Proof.
  revert self. induction files as [|f files IH]; intros self Hconv; simpl in *.
  - injection Hconv as <-. split; [constructor|].
    exists (samples_chunk_stack self).
    unfold update_max_chunks.
    destruct (max_chunks self >? max_chunks self) eqn:E; [lia|]. by destruct self.
  - destruct (loads (buffer_size self) f) eqn:Hl.
    + rewrite (convert_sample_loads self f Hl) in Hconv. simpl in Hconv.
      apply IH in Hconv as [Hall (d & ->)]. simpl in *.
      destruct (config_update self (amount_of (buffer_size self) f)) as (Hbs & _).
      rewrite Hbs in *. split; [by constructor|].
      exists d. rewrite update_max_chunks_set_samples. simpl.
      rewrite update_max_chunks_twice, max_chunks_update.
      rewrite largest_amount_base.
      rewrite Z.max_assoc, Z.max_id. reflexivity.
    + destruct (convert_sample_fails self f Hl) as [e He].
      rewrite He in Hconv. done.
Qed.

Lemma convert_samples_fails (files : list (string * list Q)) (self : SVAD) :
  ~ Forall (fun file => loads (buffer_size self) file = true) files ->
  exists e, convert_samples self files = Raise e.
Proof.
  intros Hn. destruct (convert_samples self files) as [self'|e] eqn:E; [|by eexists].
  apply convert_samples_ok in E as [Hall _]. done.
Qed.

Lemma convert_samples_loads (files : list (string * list Q)) (self : SVAD) :
  Forall (fun file => loads (buffer_size self) file = true) files ->
  exists self', convert_samples self files = Ok self'.
Proof.
  revert self. induction files as [|f files IH]; intros self Hall; simpl.
  - by eexists.
  - inversion Hall as [|? ? Hf Hfs]; subst.
    rewrite (convert_sample_loads self f Hf). simpl.
    apply IH. simpl.
    by destruct (config_update self (amount_of (buffer_size self) f)) as (-> & _).
Qed.

Lemma thresholds_ok_init (bs m : Z) : thresholds_ok (init bs m).
Proof.
  unfold thresholds_ok. simpl. split; [lia|].
  split; unfold Qdiv; change (inject_Z 0) with (0 # 1)%Q; ring.
Qed.

Lemma thresholds_ok_update (self : SVAD) (a : Z) :
  thresholds_ok self -> thresholds_ok (update_max_chunks self a).
Proof.
  intros (Hmc & Hpls & Hmns). unfold update_max_chunks.
  destruct (a >? max_chunks self) eqn:E; [|done].
  unfold thresholds_ok. simpl. split; [lia|].
  split; rewrite inject_Z_mult; reflexivity.
Qed.

Lemma pattern_ok_empty (margin : Z) : pattern_ok margin ∅.
Proof. exists []. intros i. by rewrite lookup_empty. Qed.

Lemma pattern_ok_chunks_loop (margin : Z) (chunks : list (list Q)) :
  pattern_ok margin (chunks_loop margin chunks 0 ∅).
Proof. exists chunks. intros i. apply lookup_chunks_data. Qed.

Lemma Forall_dict_set {V : Type} (P : V -> Prop) (k : string) (v : V)
    (d : list (string * V)) :
  P v -> Forall (fun e => P (snd e)) d -> Forall (fun e => P (snd e)) (dict_set k v d).
Proof.
  intros Hv. induction 1 as [|[k' v'] d Hh Ht IH]; simpl.
  - by repeat constructor.
  - destruct (decide (k = k')); constructor; auto.
Qed.

Lemma dict_set_nonempty {V : Type} (k : string) (v : V) (d : list (string * V)) :
  dict_set k v d <> [].
Proof. destruct d as [|[k' v'] d]; simpl; [done|]. by destruct (decide (k = k')). Qed.

Lemma convert_samples_patterns (files : list (string * list Q)) (self self' : SVAD) :
  Forall (fun e => pattern_ok (error_margin self) (snd e)) (samples_chunk_stack self) ->
  convert_samples self files = Ok self' ->
  error_margin self' = error_margin self
  /\ Forall (fun e => pattern_ok (error_margin self) (snd e)) (samples_chunk_stack self').
Proof.
  revert self. induction files as [|f files IH]; intros self Hreg Hconv; simpl in *.
  - by injection Hconv as <-.
  - destruct (loads (buffer_size self) f) eqn:Hl.
    + rewrite (convert_sample_loads self f Hl) in Hconv. simpl in Hconv.
      destruct (config_update self (amount_of (buffer_size self) f)) as (_ & Hm & _).
      apply IH in Hconv.
      * simpl in Hconv. by rewrite Hm in Hconv.
      * simpl. rewrite Hm.
        apply (Forall_dict_set (pattern_ok (error_margin self))).
        { apply pattern_ok_chunks_loop. }
        apply (Forall_dict_set (pattern_ok (error_margin self))); [|done].
        apply pattern_ok_empty.
    + destruct (convert_sample_fails self f Hl) as [e He].
      rewrite He in Hconv. done.
Qed.

(** What loading from the initial object establishes. *)
Lemma loaded_object (bs m : Z) (files : list (string * list Q)) (self : SVAD) :
  convert_samples (init bs m) files = Ok self ->
  buffer_size self = bs
  /\ error_margin self = m
  /\ stream_chunk_stack self = []
  /\ max_chunks self = largest_amount bs 0 files
  /\ thresholds_ok self
  /\ Forall (fun e => pattern_ok m (snd e)) (samples_chunk_stack self)
  /\ (samples_chunk_stack self <> [] -> 1 <= max_chunks self).
Proof.
  intros Hconv.
  destruct (convert_samples_patterns files (init bs m) self) as [Hm Hpat]; [by constructor|done|].
  destruct (convert_samples_ok files (init bs m) self Hconv) as [Hall (d & Hself)].
  simpl in *.
  pose proof (thresholds_ok_update (init bs m) (largest_amount bs 0 files)
                (thresholds_ok_init bs m)) as Hth.
  destruct (config_update (init bs m) (largest_amount bs 0 files)) as (Hb & Hm' & _ & Hs).
  pose proof (max_chunks_update (init bs m) (largest_amount bs 0 files)) as Hmc.
  pose proof (largest_amount_ge bs 0 files) as Hge. simpl in Hmc.
  assert (Hmax : max_chunks self = largest_amount bs 0 files).
  { rewrite Hself. simpl. lia. }
  repeat split; try done.
  - by rewrite Hself.
  - by rewrite Hself.
  - rewrite Hself. apply Hth.
  - rewrite Hself. apply Hth.
  - rewrite Hself. apply Hth.
  - intros Hne. rewrite Hmax.
    destruct files as [|f files]; simpl in *.
    + injection Hconv as <-. done.
    + inversion Hall as [|? ? Hf Hfs]; subst.
      unfold loads in Hf. apply andb_true_iff in Hf as [_ Hf]. lia.
Qed.

Lemma pattern_ok_lookup (m : Z) (p : gmap nat chunk_data) (i : nat) (d : chunk_data) :
  pattern_ok m p -> p !! i = Some d ->
  (0 <= cd_sum d)%Q /\ d = chunk_band m (cd_sum d).
Proof.
  intros [chunks Hp] Hd. rewrite Hp in Hd.
  destruct (chunks !! i) as [chunk|]; [|done]. injection Hd as <-.
  split; [apply np_sum_abs_nonneg|done].
Qed.

Lemma size_map_seq (xs : list chunk_data) (start : nat) :
  size (map_seq start xs : gmap nat chunk_data) = length xs.
Proof.
  revert start. induction xs as [|x xs IH]; intros start; simpl.
  - apply map_size_empty.
  - rewrite map_size_insert_None; [by rewrite IH|].
    apply lookup_map_seq_None. lia.
Qed.

Lemma pattern_ok_size (m : Z) (p : gmap nat chunk_data) :
  pattern_ok m p ->
  forall i, is_Some (p !! i) <-> (i < size p)%nat.
Proof.
  intros [chunks Hp].
  assert (Heq : p = map_seq 0 (chunk_entry m <$> chunks)).
  { apply map_eq. intros i. by rewrite lookup_map_seq_0, list_lookup_fmap. }
  intros i. rewrite Heq at 2. rewrite size_map_seq, length_fmap.
  rewrite Hp, <- lookup_lt_is_Some. apply fmap_is_Some.
Qed.

(** ** The matcher: verdicts *)

Lemma threshold_test_iff (self : SVAD) (hits : nat) :
  threshold_test self hits = true
  <-> (max_chunks_mns self <= inject_Z (Z.of_nat hits)
       /\ inject_Z (Z.of_nat hits) <= max_chunks_pls self)%Q.
Proof. unfold threshold_test. by rewrite andb_true_iff, !Qle_bool_iff. Qed.

Lemma inject_Z_nonneg (z : Z) : 0 <= z -> (0 <= inject_Z z)%Q.
Proof. intros Hz. unfold Qle, inject_Z. simpl. lia. Qed.

(** C2. After loading, for a full window and a registry that is not empty,
    the verdict is true exactly when the hit count (of the first pattern, the
    one that is compared) lies in [match_floor, match_ceiling], with
    match_floor = max_chunks - max_chunks*margin/100 and
    match_ceiling = max_chunks + max_chunks*margin/100, where max_chunks is
    the largest chunk count among the files added; otherwise it is false. *)
Theorem verdict_threshold (bs m : Z) (files : list (string * list Q)) (self : SVAD)
    (name : string) (p : gmap nat chunk_data)
    (rest : list (string * gmap nat chunk_data)) (w : list Q) :
  convert_samples (init bs m) files = Ok self ->
  samples_chunk_stack self = (name, p) :: rest ->
  Z.of_nat (length w) = max_chunks self ->
  let max_chunks := largest_amount bs 0 files in
  let match_floor := (inject_Z max_chunks - inject_Z max_chunks * inject_Z m / (100 # 1))%Q in
  let match_ceiling := (inject_Z max_chunks + inject_Z max_chunks * inject_Z m / (100 # 1))%Q in
  exists hits verdict,
    chunk_match_hits p w = Ok hits
    /\ compare_data (set_stream self w) = Ok (Some verdict)
    /\ (verdict = true
        <-> (match_floor <= inject_Z (Z.of_nat hits)
             /\ inject_Z (Z.of_nat hits) <= match_ceiling)%Q).
Proof.
  intros Hconv Hreg Hfull mc match_floor match_ceiling.
  destruct (loaded_object bs m files self Hconv)
    as (_ & Hm & _ & Hmc & (_ & Hpls & Hmns) & _).
  exists (count_hits p 0 w), (threshold_test (set_stream self w) (count_hits p 0 w)).
  split; [apply chunk_match_hits_count|].
  split; [by rewrite (compare_data_first (set_stream self w) (name, p) rest)|].
  rewrite threshold_test_iff. simpl.
  rewrite Hpls, Hmns, Hm, Hmc. reflexivity.
Qed.

(** C8. Against a full window whose values are all zero, every loaded pattern
    has no hit and, with a margin below 100, the verdict is false.  This holds
    whether or not the centers of the pattern are positive. *)
Theorem silence_no_match (bs m : Z) (files : list (string * list Q)) (self : SVAD)
    (name : string) (p : gmap nat chunk_data) (w : list Q) :
  convert_samples (init bs m) files = Ok self ->
  (name, p) ∈ samples_chunk_stack self ->
  (forall i d, p !! i = Some d -> (0 < cd_sum d)%Q) ->
  m < 100 ->
  Z.of_nat (length w) = max_chunks self ->
  Forall (fun v => (v == 0)%Q) w ->
  chunk_match_hits p w = Ok 0%nat
  /\ compare_data (set_stream self w) = Ok (Some false).
Proof.
  intros Hconv Hin _ Hm Hfull Hzero.
  destruct (loaded_object bs m files self Hconv)
    as (_ & Hmargin & _ & _ & (_ & _ & Hmns) & _ & Hpos).
  split.
  - by rewrite chunk_match_hits_count, count_hits_silence.
  - destruct (samples_chunk_stack self) as [|first rest] eqn:Hreg.
    { by apply elem_of_nil in Hin. }
    rewrite (compare_data_first (set_stream self w) first rest) by done.
    simpl. rewrite count_hits_silence by done.
    do 2 f_equal. apply not_true_is_false. rewrite threshold_test_iff. simpl.
    intros [Hfloor _]. rewrite Hmns, Hmargin in Hfloor.
    specialize (Hpos ltac:(done)).
    assert (H1 : (1 <= inject_Z (max_chunks self))%Q).
    { unfold Qle, inject_Z. simpl. lia. }
    assert (H2 : (inject_Z m <= 99)%Q).
    { unfold Qle, inject_Z. simpl. lia. }
    change (inject_Z (Z.of_nat 0)) with (0 # 1)%Q in Hfloor.
    set (c := inject_Z (max_chunks self)) in *. set (q := inject_Z m) in *.
    assert (Heq : (c - c * q / (100 # 1) == c * ((100 # 1) - q) * (1 # 100))%Q).
    { unfold Qdiv. change (/ (100 # 1))%Q with (1 # 100)%Q. ring. }
    rewrite Heq in Hfloor.
    assert (Hprod : (0 < c * ((100 # 1) - q))%Q).
    { apply Qmult_lt_0_compat; lra. }
    assert (Hfin : (0 < c * ((100 # 1) - q) * (1 # 100))%Q).
    { apply Qmult_lt_0_compat; [done|by compute]. }
    lra.
Qed.

(** C9 (as amended). With no reference file, [convert_samples] raises
    nothing: it returns normally and leaves the registry empty, with
    [max_chunks] and the two thresholds at 0. *)
Theorem empty_collection_loads (bs m : Z) :
  convert_samples (init bs m) [] = Ok (init bs m)
  /\ samples_chunk_stack (init bs m) = []
  /\ max_chunks (init bs m) = 0
  /\ max_chunks_mns (init bs m) = (0 # 1)%Q
  /\ max_chunks_pls (init bs m) = (0 # 1)%Q.
Proof. repeat split. Qed.

(** After such a load the main loop starts, and the first block it reads
    raises [IndexError]: the window is empty and [max_chunks] is 0, so the
    oldest entry of an empty list is popped. *)
Lemma run_empty_collection (bs m : Z) (data : list Q) (reads : list (list Q)) :
  run (init bs m) [] (data :: reads) = Raise IndexError.
Proof. reflexivity. Qed.

(** C9 (as stated) fails: loading an empty collection raises nothing. *)
Lemma empty_collection_no_error :
  ~ exists e, convert_samples (init 1024 50) [] = Raise e.
Proof. intros [e He]. simpl in He. discriminate He. Qed.

Lemma pattern_ok_band (m : Z) (p : gmap nat chunk_data) (i : nat) (d : chunk_data) :
  pattern_ok m p -> p !! i = Some d ->
  cd_pls d = (cd_sum d + cd_sum d * inject_Z m / (100 # 1))%Q
  /\ cd_mns d = (cd_sum d - cd_sum d * inject_Z m / (100 # 1))%Q.
Proof.
  intros Hp Hd. destruct (pattern_ok_lookup m p i d Hp Hd) as [_ Heq].
  rewrite Heq. simpl. done.
Qed.

(** A live value equal to a positive center counts at that position. *)
Lemma hit_center (m : Z) (p : gmap nat chunk_data) (i : nat) (d : chunk_data) (v : Q) :
  pattern_ok m p -> 0 <= m ->
  p !! i = Some d -> (0 < cd_sum d)%Q -> (v == cd_sum d)%Q ->
  hit p i v = true.
Proof.
  intros Hp Hm Hd Hpos Hv. unfold hit. rewrite Hd.
  destruct (pattern_ok_band m p i d Hp Hd) as [Hpls Hmns].
  pose proof (margin_share_nonneg (cd_sum d) m ltac:(lra) Hm) as Hshare.
  apply andb_true_iff. split; [|apply andb_true_iff; split].
  - unfold truthy. destruct (Qeq_bool v (0 # 1)) eqn:E; [|done].
    apply Qeq_bool_iff in E. lra.
  - apply Qle_bool_iff. rewrite Hmns, Hv. lra.
  - apply Qle_bool_iff. rewrite Hpls, Hv. lra.
Qed.

(** C7 (as amended). For a loaded pattern whose chunk count is the capacity
    of the window and whose centers are all positive, and a margin >= 0, a
    window that holds center i at every position i gives as many hits as the
    pattern has chunks; and when the pattern is the first of the registry the
    verdict is true. *)
Theorem exact_replay_matches (bs m : Z) (files : list (string * list Q)) (self : SVAD)
    (name : string) (p : gmap nat chunk_data) (w : list Q) :
  convert_samples (init bs m) files = Ok self ->
  (name, p) ∈ samples_chunk_stack self ->
  Z.of_nat (size p) = max_chunks self ->
  0 <= m ->
  (forall i d, p !! i = Some d -> (0 < cd_sum d)%Q) ->
  length w = size p ->
  (forall i d, p !! i = Some d -> exists v, w !! i = Some v /\ (v == cd_sum d)%Q) ->
  chunk_match_hits p w = Ok (size p)
  /\ (head (samples_chunk_stack self) = Some (name, p) ->
      compare_data (set_stream self w) = Ok (Some true)).
Proof.
  intros Hconv Hin Hcount Hm Hpos Hlen Hreplay.
  destruct (loaded_object bs m files self Hconv)
    as (_ & Hmargin & _ & _ & (Hmc & Hpls & Hmns) & Hpat & _).
  assert (Hp : pattern_ok m p).
  { rewrite Forall_forall in Hpat. apply (Hpat (name, p)), Hin. }
  assert (Hhits : count_hits p 0 w = size p).
  { rewrite <- Hlen. apply count_hits_all. intros j v Hj. simpl.
    assert (Hlt : (j < size p)%nat).
    { rewrite <- Hlen. by apply lookup_lt_Some in Hj. }
    apply (pattern_ok_size m p Hp) in Hlt as [d Hd].
    destruct (Hreplay j d Hd) as (v' & Hv' & Heq).
    rewrite Hj in Hv'. injection Hv' as <-.
    by apply (hit_center m p j d v Hp Hm Hd (Hpos j d Hd)). }
  split; [by rewrite chunk_match_hits_count, Hhits|].
  intros Hfirst.
  destruct (samples_chunk_stack self) as [|first rest] eqn:Hreg; [done|].
  injection Hfirst as ->.
  rewrite (compare_data_first (set_stream self w) (name, p) rest) by done.
  simpl. rewrite Hhits. do 2 f_equal.
  apply threshold_test_iff. simpl. rewrite Hcount, Hpls, Hmns, Hmargin.
  pose proof (margin_share_nonneg (inject_Z (max_chunks self)) m
                (inject_Z_nonneg _ Hmc) Hm) as Hshare.
  split; lra.
Qed.

(** ** Order of loading *)

Lemma same_thresholds_perm (self : SVAD) (files files' : list (string * list Q)) :
  files ≡ₚ files' ->
  same_thresholds (convert_samples self files) (convert_samples self files').
Proof.
  intros Hperm.
  destruct (decide (Forall (fun file => loads (buffer_size self) file = true) files))
    as [Hall|Hnot].
  - assert (Hall' : Forall (fun file => loads (buffer_size self) file = true) files').
    { by rewrite <- Hperm. }
    destruct (convert_samples_loads files self Hall) as [s1 H1].
    destruct (convert_samples_loads files' self Hall') as [s2 H2].
    rewrite H1, H2. simpl.
    apply convert_samples_ok in H1 as [_ (d1 & ->)].
    apply convert_samples_ok in H2 as [_ (d2 & ->)].
    rewrite (largest_amount_perm _ _ files files' Hperm). done.
  - assert (Hnot' : ~ Forall (fun file => loads (buffer_size self) file = true) files').
    { by rewrite <- Hperm. }
    destruct (convert_samples_fails files self Hnot) as [e1 ->].
    destruct (convert_samples_fails files' self Hnot') as [e2 ->].
    done.
Qed.

Lemma insert_by_amount_perm (bs : Z) (file : string * list Q)
    (files : list (string * list Q)) :
  insert_by_amount bs file files ≡ₚ file :: files.
Proof.
  induction files as [|f files IH]; simpl; [done|].
  destruct (amount_of bs file <=? amount_of bs f); [done|].
  rewrite IH. apply perm_swap.
Qed.

Lemma ascending_perm (bs : Z) (files : list (string * list Q)) :
  files ≡ₚ ascending bs files.
Proof.
  induction files as [|f files IH]; simpl; [done|].
  rewrite insert_by_amount_perm. by constructor.
Qed.

(** C6. Adding the same files in any order ends with the same [max_chunks],
    floor and ceiling, in particular the same as adding them by ascending
    chunk count; on success the three scalars are those of one update with the
    largest chunk count among the files. *)
Theorem registry_order_independent (self : SVAD) (files files' : list (string * list Q)) :
  files ≡ₚ files' ->
  same_thresholds (convert_samples self files) (convert_samples self files')
  /\ same_thresholds (convert_samples self files)
       (convert_samples self (ascending (buffer_size self) files))
  /\ forall self',
       convert_samples self files = Ok self' ->
       let largest := update_max_chunks self
                        (largest_amount (buffer_size self) (max_chunks self) files) in
       max_chunks self' = max_chunks largest
       /\ max_chunks_mns self' = max_chunks_mns largest
       /\ max_chunks_pls self' = max_chunks_pls largest.
Proof.
  intros Hperm. split; [by apply same_thresholds_perm|].
  split; [apply same_thresholds_perm, ascending_perm|].
  intros self' Hconv. by apply convert_samples_ok in Hconv as [_ (d & ->)].
Qed.

(** * Concrete runs *)
Lemma demo_loaded : convert_samples (init 1 50) [demo_file] = Ok demo_self.
Proof. vm_compute. reflexivity. Qed.

Lemma demo_pattern_lookup (i : nat) (d : chunk_data) :
  demo_pattern !! i = Some d ->
  (i = 0%nat /\ d = chunk_entry 50 [10 # 1]%Q)
  \/ (i = 1%nat /\ d = chunk_entry 50 [- (20 # 1)]%Q).
Proof.
  unfold demo_pattern, pattern_of. rewrite lookup_chunks_data.
  change (split_sections _ _) with [[10 # 1]; [- (20 # 1)]]%Q.
  destruct i as [|[|i]]; simpl; intros H; [left|right|done]; by injection H as <-.
Qed.

Lemma demo_pattern_size : size demo_pattern = 2%nat.
Proof. vm_compute. reflexivity. Qed.

Lemma first_pattern_decides_witness :
  compare_data (set_stream demo_self [10 # 1; 20 # 1]%Q) = Ok (Some true).
Proof.
  destruct (first_pattern_decides (set_stream demo_self [10 # 1; 20 # 1]%Q)
              "sample-01.wav" demo_pattern [] eq_refl) as (hits & H1 & H2 & _).
  rewrite H2. vm_compute in H1. injection H1 as <-. vm_compute. reflexivity.
Defined.

Lemma verdict_threshold_witness :
  exists hits verdict,
    chunk_match_hits demo_pattern [10 # 1; 20 # 1]%Q = Ok hits
    /\ compare_data (set_stream demo_self [10 # 1; 20 # 1]%Q) = Ok (Some verdict).
Proof.
  destruct (verdict_threshold 1 50 [demo_file] demo_self "sample-01.wav" demo_pattern []
              [10 # 1; 20 # 1]%Q demo_loaded eq_refl eq_refl)
    as (hits & verdict & H1 & H2 & _).
  exists hits, verdict. split; assumption.
Defined.

Lemma silence_no_match_witness :
  chunk_match_hits demo_pattern [0 # 1; 0 # 1]%Q = Ok 0%nat
  /\ compare_data (set_stream demo_self [0 # 1; 0 # 1]%Q) = Ok (Some false).
Proof.
  apply (silence_no_match 1 50 [demo_file] demo_self "sample-01.wav" demo_pattern
           [0 # 1; 0 # 1]%Q demo_loaded).
  - simpl. apply list_elem_of_here.
  - intros i d Hd.
    destruct (demo_pattern_lookup i d Hd) as [[_ ->]|[_ ->]]; by vm_compute.
  - lia.
  - reflexivity.
  - repeat constructor.
Defined.

Lemma exact_replay_matches_witness :
  chunk_match_hits demo_pattern [10 # 1; 20 # 1]%Q = Ok (size demo_pattern)
  /\ (head (samples_chunk_stack demo_self) = Some ("sample-01.wav", demo_pattern) ->
      compare_data (set_stream demo_self [10 # 1; 20 # 1]%Q) = Ok (Some true)).
Proof.
  apply (exact_replay_matches 1 50 [demo_file] demo_self "sample-01.wav" demo_pattern
           [10 # 1; 20 # 1]%Q demo_loaded).
  - simpl. apply list_elem_of_here.
  - rewrite demo_pattern_size. reflexivity.
  - lia.
  - intros i d Hd.
    destruct (demo_pattern_lookup i d Hd) as [[_ ->]|[_ ->]]; by vm_compute.
  - by rewrite demo_pattern_size.
  - intros i d Hd.
    destruct (demo_pattern_lookup i d Hd) as [[-> ->]|[-> ->]];
      eexists; (split; [reflexivity|by vm_compute]).
Defined.

Lemma registry_order_independent_witness :
  same_thresholds
    (convert_samples (init 1 50) [demo_file; ("sample-02.wav", [1 # 1; 2 # 1; 3 # 1]%Q)])
    (convert_samples (init 1 50) [("sample-02.wav", [1 # 1; 2 # 1; 3 # 1]%Q); demo_file]).
Proof.
  destruct (registry_order_independent (init 1 50)
              [demo_file; ("sample-02.wav", [1 # 1; 2 # 1; 3 # 1]%Q)]
              [("sample-02.wav", [1 # 1; 2 # 1; 3 # 1]%Q); demo_file]) as [H _].
  - apply perm_swap.
  - exact H.
Defined.

(** C7 (as stated) fails on a recording with a silent chunk: with a block
    size of 2 and a margin of 0, the samples 0, 0, 1, 1 give two chunks of
    energies 0 and 2; the window that replays exactly these energies gets one
    hit, not two, and the verdict is false. *)
Lemma exact_replay_silent_chunk :
  let w := [0 # 1; 2 # 1]%Q in
  exists self p,
    convert_samples (init 2 0) [silent_file] = Ok self
    /\ samples_chunk_stack self = [("sample-01.wav", p)]
    /\ Z.of_nat (size p) = max_chunks self
    /\ length w = size p
    /\ (forall i d, p !! i = Some d -> w !! i = Some (cd_sum d))
    /\ chunk_match_hits p w = Ok 1%nat
    /\ size p = 2%nat
    /\ compare_data (set_stream self w) = Ok (Some false).
Proof.
  intros w.
  exists (set_samples (update_max_chunks (init 2 0) 2)
            [("sample-01.wav", pattern_of 2 0 silent_file)]),
         (pattern_of 2 0 silent_file).
  split; [by vm_compute|]. split; [done|]. split; [by vm_compute|].
  split; [by vm_compute|]. split; [|by vm_compute].
  intros i d. unfold pattern_of. rewrite lookup_chunks_data.
  change (split_sections _ _) with [[0 # 1; 0 # 1]; [1 # 1; 1 # 1]]%Q.
  destruct i as [|[|i]]; simpl; intros H; [| |done]; by injection H as <-.
Qed.

(** * Further properties of the code *)

(** ** Loading: which files load, and what the registry holds *)


Lemma convert_sample_raises (self : SVAD) (file : string * list Q) :
  loads (buffer_size self) file = false ->
  convert_sample self file = Raise (load_error (buffer_size self)).
Proof.
  destruct file as [name data]. unfold loads, amount_of, load_error. simpl. intros Hl.
  unfold convert_sample, floor_div. simpl.
  destruct (buffer_size self =? 0) eqn:E; [done|]. simpl in *.
  unfold array_split.
  destruct (Z.of_nat (length data) / buffer_size self <=? 0) eqn:E'; [done|lia].
Qed.




Lemma dict_set_fresh {V : Type} (k : string) (v : V) (d : list (string * V)) :
  k ∉ d.*1 -> dict_set k v d = d ++ [(k, v)].
Proof.
  induction d as [|[k' v'] d IH]; simpl; intros Hk; [done|].
  apply not_elem_of_cons in Hk as [Hne Hk].
  destruct (decide (k = k')); [done|]. by rewrite IH.
Qed.

Lemma dict_set_replace_last {V : Type} (k : string) (v v' : V) (d : list (string * V)) :
  k ∉ d.*1 -> dict_set k v (d ++ [(k, v')]) = d ++ [(k, v)].
Proof.
  induction d as [|[k' w] d IH]; simpl; intros Hk.
  - by rewrite decide_True.
  - apply not_elem_of_cons in Hk as [Hne Hk].
    destruct (decide (k = k')); [done|]. by rewrite IH.
Qed.

(** X2. When the file names are distinct and new to the registry (as the
    paths a glob returns are), loading appends one entry per file, in the
    order of the files: the first file read is the first pattern registered. *)
Theorem registry_in_file_order (files : list (string * list Q)) (self self' : SVAD) :
  NoDup ((samples_chunk_stack self).*1 ++ files.*1) ->
  convert_samples self files = Ok self' ->
  samples_chunk_stack self' =
    samples_chunk_stack self
    ++ map (fun file => (fst file, pattern_of (buffer_size self) (error_margin self) file))
         files.
Proof.
  revert self. induction files as [|f files IH]; intros self Hnd Hconv; simpl in *.
  - injection Hconv as <-. by rewrite app_nil_r.
  - destruct (loads (buffer_size self) f) eqn:Hl.
    2:{ by rewrite (convert_sample_raises self f Hl) in Hconv. }
    rewrite (convert_sample_loads self f Hl) in Hconv. simpl in Hconv.
    destruct (config_update self (amount_of (buffer_size self) f)) as (Hbs & Hm & _).
    assert (Hfresh : f.1 ∉ (samples_chunk_stack self).*1).
    { apply NoDup_app in Hnd as (_ & Hdis & _). intros Hin.
      apply (Hdis _ Hin). left. }
    rewrite (dict_set_fresh _ ∅ _ Hfresh) in Hconv.
    rewrite (dict_set_replace_last _ _ ∅ _ Hfresh) in Hconv.
    apply IH in Hconv; simpl in *.
    + rewrite Hconv, Hbs, Hm. by rewrite <- (assoc_L (++)).
    + rewrite fmap_app. simpl. rewrite <- (assoc_L (++)). simpl.
      by rewrite <- Permutation_middle in Hnd |- *.
Qed.

Lemma registry_in_file_order_witness :
  samples_chunk_stack demo_self = [("sample-01.wav", pattern_of 1 50 demo_file)].
Proof.
  apply (registry_in_file_order [demo_file] (init 1 50) demo_self).
  - simpl. apply NoDup_singleton.
  - exact demo_loaded.
Defined.

(** ** Loading: the shape of a pattern *)

(** The chunks a file that loads is split into. *)
Lemma pattern_of_chunks (bs m : Z) (file : string * list Q) :
  loads bs file = true ->
  exists chunks,
    array_split (snd file) (amount_of bs file) = Ok chunks
    /\ length chunks = Z.to_nat (amount_of bs file)
    /\ concat chunks = snd file
    /\ map length chunks
       = section_sizes (length (snd file)) (Z.to_nat (amount_of bs file))
    /\ forall i, pattern_of bs m file !! i = chunk_entry m <$> chunks !! i.
Proof.
  intros [_ Ha%Z.ltb_lt]%andb_true_iff.
  destruct (array_split_ok (snd file) (amount_of bs file) Ha)
    as (chunks & Hsplit & Hlen & Hcat & Hsizes).
  exists chunks. repeat split; try done.
  intros i. unfold pattern_of. rewrite lookup_chunks_data.
  unfold array_split in Hsplit.
  destruct (amount_of bs file <=? 0); [done|]. by injection Hsplit as <-.
Qed.

Lemma size_of_lookups (p : gmap nat chunk_data) (xs : list chunk_data) :
  (forall i, p !! i = xs !! i) -> size p = length xs.
Proof.
  intros Hp.
  assert (Heq : p = map_seq 0 xs).
  { apply map_eq. intros i. by rewrite lookup_map_seq_0. }
  rewrite Heq. apply size_map_seq.
Qed.

(** X3. The pattern of a file that loads has exactly floor(len / block size)
    entries, at the positions 0, 1, ... without a gap. *)
Theorem pattern_size (bs m : Z) (file : string * list Q) :
  loads bs file = true ->
  size (pattern_of bs m file) = Z.to_nat (Z.of_nat (length (snd file)) / bs)
  /\ forall i, is_Some (pattern_of bs m file !! i)
               <-> (i < Z.to_nat (Z.of_nat (length (snd file)) / bs))%nat.
Proof.
  intros Hl.
  destruct (pattern_of_chunks bs m file Hl) as (chunks & _ & Hlen & _ & _ & Hp).
  fold (amount_of bs file). rewrite <- Hlen. split.
  - rewrite (size_of_lookups _ (chunk_entry m <$> chunks)); [by rewrite length_fmap|].
    intros i. by rewrite Hp, list_lookup_fmap.
  - intros i. rewrite Hp, fmap_is_Some. apply lookup_lt_is_Some.
Qed.

Lemma pattern_size_witness : size (pattern_of 1 50 demo_file) = 2%nat.
Proof.
  destruct (pattern_size 1 50 demo_file) as [H _]; [reflexivity|].
  rewrite H. reflexivity.
Defined.

Lemma omap_lookup_seq {A B : Type} (g : nat -> option B) (f : A -> B)
    (l0 l done_ : list A) :
  (forall i, g i = f <$> l0 !! i) ->
  l0 = done_ ++ l ->
  omap g (seq (length done_) (length l)) = f <$> l.
Proof.
  intros Hg. revert done_. induction l as [|x l IH]; intros done_ Hl0; simpl; [done|].
  rewrite Hg. rewrite Hl0 at 1. rewrite list_lookup_middle by done. simpl. f_equal.
  specialize (IH (done_ ++ [x])). rewrite length_app in IH. simpl in IH.
  replace (length done_ + 1)%nat with (S (length done_)) in IH by lia.
  apply IH. by rewrite <- (assoc_L (++)).
Qed.

Lemma centers_of_chunks (m : Z) (p : gmap nat chunk_data) (chunks : list (list Q)) :
  (forall i, p !! i = chunk_entry m <$> chunks !! i) ->
  centers p = map (fun chunk => np_sum (np_abs chunk)) chunks.
Proof.
  intros Hp. unfold centers.
  rewrite (size_of_lookups p (chunk_entry m <$> chunks))
    by (intros i; by rewrite Hp, list_lookup_fmap).
  rewrite length_fmap.
  apply (omap_lookup_seq _ (fun chunk => np_sum (np_abs chunk)) chunks chunks []); [|done].
  intros i. rewrite Hp. by destruct (chunks !! i).
Qed.

Lemma np_sum_app (a b : list Q) : (np_sum (a ++ b) == np_sum a + np_sum b)%Q.
Proof.
  induction a as [|x a IH]; simpl.
  - ring.
  - fold (np_sum (a ++ b)). fold (np_sum a). rewrite IH. ring.
Qed.

Lemma np_sum_chunks (chunks : list (list Q)) :
  (np_sum (map (fun chunk => np_sum (np_abs chunk)) chunks)
   == np_sum (np_abs (concat chunks)))%Q.
Proof.
  induction chunks as [|c chunks IH]; simpl; [reflexivity|].
  fold (np_sum (map (fun chunk => np_sum (np_abs chunk)) chunks)).
  unfold np_abs at 3. rewrite map_app. fold (np_abs c). fold (np_abs (concat chunks)).
  rewrite np_sum_app, IH. reflexivity.
Qed.

(** X4. Chunking loses no energy: the centers of the pattern of a file that
    loads add up to the sum of the absolute values of all its samples. *)
Theorem pattern_energy_total (bs m : Z) (file : string * list Q) :
  loads bs file = true ->
  (np_sum (centers (pattern_of bs m file)) == np_sum (np_abs (snd file)))%Q.
Proof.
  intros Hl.
  destruct (pattern_of_chunks bs m file Hl) as (chunks & _ & _ & Hcat & _ & Hp).
  rewrite (centers_of_chunks m _ chunks Hp), np_sum_chunks, Hcat. reflexivity.
Qed.

Lemma pattern_energy_total_witness :
  (np_sum (centers (pattern_of 1 50 demo_file)) == 30 # 1)%Q.
Proof.
  rewrite (pattern_energy_total 1 50 demo_file); [|reflexivity].
  reflexivity.
Defined.

Lemma section_size_cases (L n s : nat) :
  s ∈ section_sizes L n ->
  s = (L / n)%nat \/ (s = S (L / n) /\ (L mod n <> 0)%nat).
Proof.
  unfold section_sizes. rewrite elem_of_app, !elem_of_replicate.
  intros [[-> Hne]|[-> _]]; auto.
Qed.

(** X5. Every chunk of a reference recording that loads has at least as many
    samples as a block, and fewer than two blocks; when the recording is a
    whole number of blocks, every chunk is exactly one block long. *)
Theorem reference_chunk_lengths (bs : Z) (data_points : list Q)
    (chunks : list (list Q)) :
  0 < bs <= Z.of_nat (length data_points) ->
  array_split data_points (Z.of_nat (length data_points) / bs) = Ok chunks ->
  forall chunk, chunk ∈ chunks ->
    bs <= Z.of_nat (length chunk) < 2 * bs
    /\ (Z.of_nat (length data_points) mod bs = 0 -> Z.of_nat (length chunk) = bs).
Proof.
  intros [Hbs HL] Hsplit chunk Hin.
  set (L := length data_points) in *.
  assert (Hn : 0 < Z.of_nat L / bs) by (apply Z.div_str_pos; lia).
  destruct (array_split_ok data_points (Z.of_nat L / bs) Hn)
    as (chunks' & Hsplit' & _ & _ & Hsizes).
  rewrite Hsplit in Hsplit'. injection Hsplit' as <-.
  assert (Hs : length chunk ∈ section_sizes L (Z.to_nat (Z.of_nat L / bs))).
  { fold L in Hsizes. rewrite <- Hsizes. by apply (list_elem_of_fmap_2 length). }
  apply section_size_cases in Hs.
  set (n := Z.to_nat (Z.of_nat L / bs)) in *.
  assert (Hnpos : (0 < n)%nat) by (unfold n; lia).
  pose proof (Z.div_mod (Z.of_nat L) bs ltac:(lia)) as Hdm.
  pose proof (Z.mod_pos_bound (Z.of_nat L) bs Hbs) as Hmod.
  assert (Hnz : Z.of_nat n = Z.of_nat L / bs) by (unfold n; lia).
  rewrite <- Hnz in Hdm.
  pose proof (Nat.div_mod_eq L n) as Hdn.
  pose proof (Nat.mod_upper_bound L n ltac:(lia)) as Hmn.
  set (q := (L / n)%nat) in *. set (r := (L mod n)%nat) in *.
  set (rz := Z.of_nat L mod bs) in *.
  assert (HLz : Z.of_nat L = Z.of_nat n * Z.of_nat q + Z.of_nat r) by lia.
  assert (Hqlow : bs <= Z.of_nat q).
  { destruct (Z_lt_le_dec (Z.of_nat q) bs) as [Hlt|]; [|done]. nia. }
  split; [split|].
  - destruct Hs as [->|[-> _]]; lia.
  - destruct Hs as [->|[-> Hr]].
    + nia.
    + assert (Hn2 : (2 <= n)%nat).
      { destruct (decide (n = 1%nat)) as [Hn1|]; [|lia].
        unfold r in Hr. rewrite Hn1 in Hr. by rewrite Nat.mod_1_r in Hr. }
      nia.
  - intros Hrz.
    assert (Hq : Z.of_nat q = bs) by nia.
    destruct Hs as [->|[-> Hr]]; [done|]. nia.
Qed.

Lemma reference_chunk_lengths_witness :
  2 <= Z.of_nat (length [4 # 1; 5 # 1]%Q) < 4.
Proof.
  apply (reference_chunk_lengths 2 [1 # 1; 2 # 1; 3 # 1; 4 # 1; 5 # 1]%Q
           [[1 # 1; 2 # 1; 3 # 1]; [4 # 1; 5 # 1]]%Q).
  - simpl. lia.
  - reflexivity.
  - apply list_elem_of_further, list_elem_of_here.
Defined.

(** ** The main loop *)

Lemma compare_data_ok (self : SVAD) : exists v, compare_data self = Ok v.
Proof.
  destruct (samples_chunk_stack self) as [|entry rest] eqn:Hreg.
  - exists None. unfold compare_data. by rewrite Hreg.
  - eexists. by apply (compare_data_first self entry rest).
Qed.

(** X6. With a capacity of at least 1 and an empty window at the start, the
    window never holds more than [max_chunks] energies: after k blocks it holds
    min(k, max_chunks) of them, and as long as k <= max_chunks it holds the
    energies of all the blocks read, none dropped. *)
Theorem window_bounded (self : SVAD) (reads : list (list Q)) :
  1 <= max_chunks self ->
  stream_chunk_stack self = [] ->
  exists self',
    ingest_all self reads = Ok self'
    /\ length (stream_chunk_stack self')
       = Nat.min (length reads) (Z.to_nat (max_chunks self))
    /\ (Z.of_nat (length reads) <= max_chunks self ->
        stream_chunk_stack self' = energies reads).
Proof.
  intros Hc Hempty.
  destruct (ingest_all_stream reads self Hc) as (self' & Hall & _ & Hs).
  { rewrite Hempty. simpl. lia. }
  rewrite Hempty in Hs. simpl in Hs.
  assert (Hlen : length (energies reads) = length reads)
    by (unfold energies; by rewrite length_map).
  exists self'. split; [done|]. rewrite Hs. split.
  - rewrite length_drop. lia.
  - intros Hk. replace (length reads - Z.to_nat (max_chunks self))%nat with 0%nat by lia.
    done.
Qed.

Lemma window_bounded_witness :
  exists self',
    ingest_all (set_max_chunks (init 1 50) 2 (3 # 1) (1 # 1))
      [[1 # 1]; [2 # 1]; [3 # 1]] = Ok self'
    /\ length (stream_chunk_stack self') = 2%nat.
Proof.
  destruct (window_bounded (set_max_chunks (init 1 50) 2 (3 # 1) (1 # 1))
              [[1 # 1]; [2 # 1]; [3 # 1]]) as (self' & H1 & H2 & _).
  - simpl. lia.
  - reflexivity.
  - exists self'. split; [exact H1|exact H2].
Defined.

(** X7. Nothing is compared before the window is full: started with an
    empty window, on fewer blocks than [max_chunks] the loop reads them all and
    reports no match, whatever the registry holds. *)
Theorem no_verdict_before_full (reads : list (list Q)) (self : SVAD) :
  Z.of_nat (length (stream_chunk_stack self) + length reads) < max_chunks self ->
  exists self',
    run_loop self reads = Ok (StreamEnded self')
    /\ stream_chunk_stack self' = stream_chunk_stack self ++ energies reads
    /\ samples_chunk_stack self' = samples_chunk_stack self.
Proof.
  revert self. induction reads as [|data reads IH]; intros self Hlt; simpl.
  - exists self. by rewrite app_nil_r.
  - cbn [length] in Hlt. unfold ingest.
    destruct (Z.of_nat (length (stream_chunk_stack self)) >=? max_chunks self) eqn:E;
      [lia|].
    simpl.
    destruct (Z.of_nat (length (stream_chunk_stack self ++ [np_sum (np_abs data)]))
              <? max_chunks self) eqn:E'.
    2:{ rewrite length_app in E'. cbn [length] in E'. apply Z.ltb_ge in E'.
        exfalso. clear IH. lia. }
    destruct (IH (set_stream self (stream_chunk_stack self ++ [np_sum (np_abs data)])))
      as (self' & Hrun & Hs & Hreg).
    { cbn [stream_chunk_stack set_stream max_chunks]. rewrite length_app.
      cbn [length]. lia. }
    exists self'. split; [done|]. simpl in Hs, Hreg. split; [|done].
    by rewrite Hs, <- (assoc_L (++)).
Qed.

Lemma no_verdict_before_full_witness :
  exists self',
    run_loop demo_self [[10 # 1]]%Q = Ok (StreamEnded self').
Proof.
  destruct (no_verdict_before_full [[10 # 1]]%Q demo_self) as (self' & H & _).
  - vm_compute. reflexivity.
  - exists self'. exact H.
Defined.

Lemma ingest_all_cons (self s1 : SVAD) (data : list Q) (reads : list (list Q)) (n : nat) :
  ingest self data = Ok s1 ->
  ingest_all self (take (S n) (data :: reads)) = ingest_all s1 (take n reads).
Proof. intros Hing. simpl. by rewrite Hing. Qed.

(** What the main loop does on the blocks it is given: it reads a prefix of
    them, stops at the first state that fires, and raises nothing. *)
Lemma run_loop_spec (reads : list (list Q)) (self : SVAD) :
  1 <= max_chunks self ->
  Z.of_nat (length (stream_chunk_stack self)) <= max_chunks self ->
  exists o n,
    run_loop self reads = Ok o
    /\ (n <= length reads)%nat
    /\ ingest_all self (take n reads) = Ok (final o)
    /\ (forall j s, (0 < j < n)%nat ->
          ingest_all self (take j reads) = Ok s -> fires s = false)
    /\ match o with
       | MatchFound s => (0 < n)%nat /\ fires s = true
       | StreamEnded s => n = length reads /\ ((0 < n)%nat -> fires s = false)
       end.
Proof.
  revert self. induction reads as [|data reads IH]; intros self Hc Hlen.
  - exists (StreamEnded self), 0%nat. simpl. repeat split; try done; try lia.
  - destruct (ingest_stream self data Hc Hlen) as (s1 & Hing & Hmc & Hs1).
    assert (Hlen1 : Z.of_nat (length (stream_chunk_stack s1)) <= max_chunks s1).
    { rewrite Hs1, Hmc, length_drop, length_app. simpl. lia. }
    assert (Hcont : fires s1 = false ->
              run_loop self (data :: reads) = run_loop s1 reads).
    { intros Hf. simpl. rewrite Hing. simpl. unfold fires, window_full in Hf.
      destruct (Z.of_nat (length (stream_chunk_stack s1)) <? max_chunks s1); [done|].
      simpl in Hf. destruct (compare_data_ok s1) as [v Hv]. rewrite Hv in *.
      by destruct v as [[|]|]. }
    destruct (fires s1) eqn:Hf.
    + exists (MatchFound s1), 1%nat. simpl. rewrite Hing. simpl.
      unfold fires, window_full in Hf. apply andb_true_iff in Hf as [Hfull Hcmp].
      destruct (Z.of_nat (length (stream_chunk_stack s1)) <? max_chunks s1) eqn:E; [done|].
      destruct (compare_data s1) as [[[|]|]|e] eqn:Ecmp; try done. simpl.
      repeat split; try lia.
      unfold fires, window_full. by rewrite E, Ecmp.
    + destruct (IH s1 ltac:(lia) Hlen1) as (o & n & Hrun & Hn & Hpre & Hearly & Hend).
      exists o, (S n). rewrite (Hcont eq_refl).
      split; [done|]. split; [simpl; lia|].
      split; [by rewrite (ingest_all_cons self s1)|].
      split.
      * intros j s Hj Hs. destruct j as [|j]; [lia|].
        rewrite (ingest_all_cons self s1) in Hs by done.
        destruct j as [|j].
        -- rewrite take_0 in Hs. simpl in Hs. by injection Hs as <-.
        -- apply (Hearly (S j) s); [lia|done].
      * destruct o as [s|s].
        -- destruct Hend as [_ Hfire]. split; [lia|done].
        -- destruct Hend as [-> Hfire]. split; [done|]. intros _.
           destruct (length reads) as [|k] eqn:Hk.
           ++ rewrite take_0 in Hpre. simpl in Hpre. by injection Hpre as <-.
           ++ apply Hfire. lia.
Qed.

(** X8. When the main loop reports a match it has read a non-empty prefix
    of the blocks, the window it stops with is full and [compare_data] is true
    on it, and no shorter prefix had left a full window with a true verdict:
    the loop stops at the first match and reads no block after it. *)
Theorem stops_at_first_match (self s : SVAD) (reads : list (list Q)) :
  1 <= max_chunks self ->
  Z.of_nat (length (stream_chunk_stack self)) <= max_chunks self ->
  run_loop self reads = Ok (MatchFound s) ->
  exists n,
    (0 < n <= length reads)%nat
    /\ ingest_all self (take n reads) = Ok s
    /\ max_chunks s <= Z.of_nat (length (stream_chunk_stack s))
    /\ compare_data s = Ok (Some true)
    /\ forall j s', (0 < j < n)%nat ->
         ingest_all self (take j reads) = Ok s' -> fires s' = false.
Proof.
  intros Hc Hlen Hrun.
  destruct (run_loop_spec reads self Hc Hlen)
    as (o & n & Hrun' & Hn & Hpre & Hearly & Hend).
  rewrite Hrun in Hrun'. injection Hrun' as <-. simpl in *.
  destruct Hend as [Hpos Hfire]. exists n.
  unfold fires, window_full in Hfire. apply andb_true_iff in Hfire as [Hfull Hcmp].
  repeat split; try done; try lia.
  by destruct (compare_data s) as [[[|]|]|e].
Qed.

Lemma stops_at_first_match_witness :
  exists n,
    (0 < n <= 3)%nat
    /\ ingest_all demo_self (take n [[10 # 1]; [- (20 # 1)]; [5 # 1]]%Q)
       = Ok (set_stream demo_self [10 # 1; 20 # 1]%Q).
Proof.
  destruct (stops_at_first_match demo_self (set_stream demo_self [10 # 1; 20 # 1]%Q)
              [[10 # 1]; [- (20 # 1)]; [5 # 1]]%Q) as (n & Hn & Hpre & _).
  - vm_compute. discriminate.
  - vm_compute. discriminate.
  - vm_compute. reflexivity.
  - exists n. split; [exact Hn|exact Hpre].
Defined.

(** X10. The main loop reaches the end of the blocks exactly when no prefix
    of them leaves a full window on which [compare_data] is true. *)
Theorem no_match_iff_none_fires (self : SVAD) (reads : list (list Q)) :
  1 <= max_chunks self ->
  Z.of_nat (length (stream_chunk_stack self)) <= max_chunks self ->
  (exists s, run_loop self reads = Ok (StreamEnded s))
  <-> (forall j s', (0 < j <= length reads)%nat ->
         ingest_all self (take j reads) = Ok s' -> fires s' = false).
Proof.
  intros Hc Hlen.
  destruct (run_loop_spec reads self Hc Hlen)
    as (o & n & Hrun & Hn & Hpre & Hearly & Hend).
  split.
  - intros [s Hs]. rewrite Hs in Hrun. injection Hrun as <-. simpl in *.
    destruct Hend as [-> Hlast]. intros j s' Hj Hs'.
    destruct (decide (j = length reads)) as [->|Hne].
    + rewrite Hpre in Hs'. injection Hs' as <-. apply Hlast. lia.
    + apply (Hearly j s'); [lia|done].
  - intros Hnone. destruct o as [s|s]; [|by exists s].
    destruct Hend as [Hpos Hfire]. simpl in Hpre.
    rewrite (Hnone n s) in Hfire; [done|lia|done].
Qed.

Lemma no_match_iff_none_fires_witness :
  exists s, run_loop demo_self [[1 # 1]; [2 # 1]; [3 # 1]]%Q = Ok (StreamEnded s).
Proof.
  destruct (no_match_iff_none_fires demo_self [[1 # 1]; [2 # 1]; [3 # 1]]%Q) as [_ H].
  - vm_compute. discriminate.
  - vm_compute. discriminate.
  - apply H. intros j s' Hj Hs'.
    destruct j as [|[|[|[|j]]]]; try lia;
      vm_compute in Hs'; injection Hs' as <-; vm_compute; reflexivity.
Defined.



(** ** Verdicts at the ends of the margin range *)

Lemma count_hits_le_length (p : gmap nat chunk_data) (l : list Q) (i : nat) :
  (count_hits p i l <= length l)%nat.
Proof.
  revert i. induction l as [|v l IH]; intros i; simpl; [done|].
  specialize (IH (S i)). destruct (hit p i v); lia.
Qed.

Lemma count_hits_le_size (m : Z) (p : gmap nat chunk_data) (l : list Q) (i : nat) :
  pattern_ok m p -> (count_hits p i l <= size p - i)%nat.
Proof.
  intros Hp. revert i. induction l as [|v l IH]; intros i; simpl; [lia|].
  specialize (IH (S i)). unfold hit.
  destruct (p !! i) as [d|] eqn:Hd; [|lia].
  assert (Hi : (i < size p)%nat) by (apply (pattern_ok_size m p Hp); by eexists).
  destruct (truthy v && _); lia.
Qed.

(** X11. With a margin of 100 or more, every full window matches, the silent
    one as well: the floor is at most 0 and the ceiling at least
    [max_chunks], so the verdict is true whatever the registry (not empty)
    and the window hold. *)
Theorem wide_margin_always_matches (bs m : Z) (files : list (string * list Q))
    (self : SVAD) (w : list Q) :
  convert_samples (init bs m) files = Ok self ->
  samples_chunk_stack self <> [] ->
  100 <= m ->
  Z.of_nat (length w) = max_chunks self ->
  compare_data (set_stream self w) = Ok (Some true).
Proof.
  intros Hconv Hne Hm Hfull.
  destruct (loaded_object bs m files self Hconv)
    as (_ & Hmargin & _ & _ & (Hmc & Hpls & Hmns) & _ & _).
  destruct (samples_chunk_stack self) as [|first rest] eqn:Hreg; [done|].
  rewrite (compare_data_first (set_stream self w) first rest) by done.
  simpl. do 2 f_equal. apply threshold_test_iff. simpl.
  rewrite Hpls, Hmns, Hmargin.
  pose proof (count_hits_le_length first.2 w 0) as Hle.
  set (h := count_hits first.2 0 w) in *.
  assert (Hh0 : (0 <= inject_Z (Z.of_nat h))%Q) by (apply inject_Z_nonneg; lia).
  assert (Hhc : (inject_Z (Z.of_nat h) <= inject_Z (max_chunks self))%Q).
  { rewrite <- Zle_Qle. lia. }
  pose proof (margin_share_nonneg (inject_Z (max_chunks self)) (m - 100)
                (inject_Z_nonneg _ Hmc) ltac:(lia)) as H1.
  pose proof (margin_share_nonneg (inject_Z (max_chunks self)) m
                (inject_Z_nonneg _ Hmc) ltac:(lia)) as H2.
  unfold Z.sub in H1. rewrite inject_Z_plus in H1.
  change (inject_Z (- (100))) with (- (100 # 1))%Q in H1.
  unfold Qdiv in *. change (/ (100 # 1))%Q with (1 # 100)%Q in *.
  split; lra.
Qed.

Lemma wide_margin_always_matches_witness :
  compare_data
    (set_stream
       (set_samples (update_max_chunks (init 1 100) 2)
          [("sample-01.wav", pattern_of 1 100 demo_file)])
       [0 # 1; 0 # 1]%Q) = Ok (Some true).
Proof.
  apply (wide_margin_always_matches 1 100 [demo_file]).
  - vm_compute. reflexivity.
  - discriminate.
  - lia.
  - reflexivity.
Defined.

(** X12. With a negative margin the detector never fires: the floor is above
    the ceiling, so the verdict is false on every window. *)
Theorem negative_margin_never_matches (bs m : Z) (files : list (string * list Q))
    (self : SVAD) (w : list Q) :
  convert_samples (init bs m) files = Ok self ->
  samples_chunk_stack self <> [] ->
  m < 0 ->
  compare_data (set_stream self w) = Ok (Some false).
Proof.
  intros Hconv Hne Hm.
  destruct (loaded_object bs m files self Hconv)
    as (_ & Hmargin & _ & _ & (_ & Hpls & Hmns) & _ & Hpos).
  specialize (Hpos Hne).
  destruct (samples_chunk_stack self) as [|first rest] eqn:Hreg; [done|].
  rewrite (compare_data_first (set_stream self w) first rest) by done.
  simpl. do 2 f_equal. apply not_true_is_false. rewrite threshold_test_iff. simpl.
  rewrite Hpls, Hmns, Hmargin. intros [Hlo Hhi].
  assert (H1 : (0 < inject_Z (max_chunks self))%Q).
  { rewrite <- (Zlt_Qlt 0). lia. }
  assert (H2 : (0 < - inject_Z m)%Q).
  { rewrite <- inject_Z_opp, <- (Zlt_Qlt 0). lia. }
  pose proof (Qmult_lt_0_compat _ _ H1 H2) as H3.
  unfold Qdiv in *. change (/ (100 # 1))%Q with (1 # 100)%Q in *.
  lra.
Qed.

Lemma negative_margin_never_matches_witness :
  compare_data
    (set_stream
       (set_samples (update_max_chunks (init 1 (-10)) 2)
          [("sample-01.wav", pattern_of 1 (-10) demo_file)])
       [10 # 1; 20 # 1]%Q) = Ok (Some false).
Proof.
  apply (negative_margin_never_matches 1 (-10) [demo_file]).
  - vm_compute. reflexivity.
  - discriminate.
  - lia.
Defined.

(** X13. The hit count of a loaded pattern is at most its number of chunks
    and at most the length of the window.  So when the first registered
    pattern has fewer chunks than the floor (a short first recording and a
    small margin), the verdict is false on every window. *)
Theorem short_first_pattern_never_matches (bs m : Z) (files : list (string * list Q))
    (self : SVAD) (name : string) (p : gmap nat chunk_data)
    (rest : list (string * gmap nat chunk_data)) (w : list Q) :
  convert_samples (init bs m) files = Ok self ->
  samples_chunk_stack self = (name, p) :: rest ->
  exists hits,
    chunk_match_hits p w = Ok hits
    /\ (hits <= size p)%nat
    /\ (hits <= length w)%nat
    /\ ((inject_Z (Z.of_nat (size p)) < max_chunks_mns self)%Q ->
        compare_data (set_stream self w) = Ok (Some false)).
Proof.
  intros Hconv Hreg.
  destruct (loaded_object bs m files self Hconv) as (_ & _ & _ & _ & _ & Hpat & _).
  assert (Hp : pattern_ok m p).
  { rewrite Hreg in Hpat. by inversion Hpat. }
  pose proof (count_hits_le_size m p w 0 Hp) as Hsize.
  pose proof (count_hits_le_length p w 0) as Hlen.
  exists (count_hits p 0 w). split; [apply chunk_match_hits_count|].
  split; [lia|]. split; [done|].
  intros Hshort.
  rewrite (compare_data_first (set_stream self w) (name, p) rest) by done.
  simpl. do 2 f_equal. apply not_true_is_false. rewrite threshold_test_iff. simpl.
  intros [Hlo _].
  assert (Hq : (inject_Z (Z.of_nat (count_hits p 0 w)) <= inject_Z (Z.of_nat (size p)))%Q).
  { rewrite <- Zle_Qle. lia. }
  lra.
Qed.

Lemma short_first_pattern_never_matches_witness :
  exists hits,
    chunk_match_hits demo_pattern [10 # 1; 20 # 1; 7 # 1]%Q = Ok hits
    /\ (hits <= 2)%nat.
Proof.
  destruct (short_first_pattern_never_matches 1 50 [demo_file] demo_self
              "sample-01.wav" demo_pattern [] [10 # 1; 20 # 1; 7 # 1]%Q
              demo_loaded eq_refl) as (hits & H1 & H2 & _).
  exists hits. split; [exact H1|]. by rewrite demo_pattern_size in H2.
Defined.

(** X14. With a margin between 0 and 100, every entry of every loaded
    pattern has 0 <= lower <= center <= upper <= 2 * center. *)
Theorem loaded_bands_ordered (bs m : Z) (files : list (string * list Q)) (self : SVAD)
    (name : string) (p : gmap nat chunk_data) (i : nat) (d : chunk_data) :
  convert_samples (init bs m) files = Ok self ->
  0 <= m <= 100 ->
  (name, p) ∈ samples_chunk_stack self ->
  p !! i = Some d ->
  (0 <= cd_mns d /\ cd_mns d <= cd_sum d
   /\ cd_sum d <= cd_pls d /\ cd_pls d <= (2 # 1) * cd_sum d)%Q.
Proof.
  intros Hconv [Hm0 Hm100] Hin Hd.
  destruct (loaded_object bs m files self Hconv) as (_ & _ & _ & _ & _ & Hpat & _).
  assert (Hp : pattern_ok m p).
  { rewrite Forall_forall in Hpat. apply (Hpat (name, p)), Hin. }
  destruct (pattern_ok_lookup m p i d Hp Hd) as [Hc _].
  destruct (pattern_ok_band m p i d Hp Hd) as [-> ->].
  pose proof (margin_share_nonneg (cd_sum d) m Hc Hm0) as H1.
  pose proof (margin_share_nonneg (cd_sum d) (100 - m) Hc ltac:(lia)) as H2.
  unfold Z.sub in H2. rewrite inject_Z_plus, inject_Z_opp in H2.
  change (inject_Z 100) with (100 # 1)%Q in H2.
  unfold Qdiv in *. change (/ (100 # 1))%Q with (1 # 100)%Q in *.
  repeat split; lra.
Qed.

Lemma loaded_bands_ordered_witness :
  (cd_mns (chunk_entry 50 [10 # 1]) <= cd_sum (chunk_entry 50 [10 # 1]))%Q.
Proof.
  destruct (loaded_bands_ordered 1 50 [demo_file] demo_self "sample-01.wav"
              demo_pattern 0 (chunk_entry 50 [10 # 1]%Q) demo_loaded)
    as (_ & H & _).
  - lia.
  - simpl. apply list_elem_of_here.
  - unfold demo_pattern, pattern_of. rewrite lookup_chunks_data. reflexivity.
  - exact H.
Defined.

Lemma ingest_frame (self self' : SVAD) (data : list Q) :
  ingest self data = Ok self' ->
  samples_chunk_stack self' = samples_chunk_stack self
  /\ max_chunks self' = max_chunks self
  /\ max_chunks_mns self' = max_chunks_mns self
  /\ max_chunks_pls self' = max_chunks_pls self
  /\ buffer_size self' = buffer_size self
  /\ error_margin self' = error_margin self.
Proof.
  unfold ingest.
  destruct (Z.of_nat (length (stream_chunk_stack self)) >=? max_chunks self);
    [destruct (stream_chunk_stack self)|]; simpl; intros H; try done;
    by injection H as <-.
Qed.

Lemma ingest_all_frame (reads : list (list Q)) (self self' : SVAD) :
  ingest_all self reads = Ok self' ->
  samples_chunk_stack self' = samples_chunk_stack self
  /\ max_chunks self' = max_chunks self
  /\ max_chunks_mns self' = max_chunks_mns self
  /\ max_chunks_pls self' = max_chunks_pls self
  /\ buffer_size self' = buffer_size self
  /\ error_margin self' = error_margin self.
Proof.
  revert self. induction reads as [|data reads IH]; intros self Hall; simpl in Hall.
  - by injection Hall as <-.
  - destruct (ingest self data) as [s1|e] eqn:Hing; simpl in Hall; [|done].
    apply IH in Hall as (H1 & H2 & H3 & H4 & H5 & H6).
    apply ingest_frame in Hing as (G1 & G2 & G3 & G4 & G5 & G6).
    rewrite H1, H2, H3, H4, H5, H6. done.
Qed.

(** X15. The main loop changes the window only: however it ends, the
    registry, [max_chunks], the two thresholds, the block size and the margin
    are those it started with. *)
Theorem run_loop_keeps_registry (self : SVAD) (reads : list (list Q)) (o : outcome) :
  run_loop self reads = Ok o ->
  samples_chunk_stack (final o) = samples_chunk_stack self
  /\ max_chunks (final o) = max_chunks self
  /\ max_chunks_mns (final o) = max_chunks_mns self
  /\ max_chunks_pls (final o) = max_chunks_pls self
  /\ buffer_size (final o) = buffer_size self
  /\ error_margin (final o) = error_margin self.
Proof.
  intros Hrun. destruct (run_loop_window reads self o Hrun) as [n Hn].
  by apply ingest_all_frame in Hn.
Qed.

Lemma run_loop_keeps_registry_witness :
  samples_chunk_stack (final (MatchFound (set_stream demo_self [10 # 1; 20 # 1]%Q)))
  = samples_chunk_stack demo_self.
Proof.
  destruct (run_loop_keeps_registry demo_self [[10 # 1]; [- (20 # 1)]; [5 # 1]]%Q
              (MatchFound (set_stream demo_self [10 # 1; 20 # 1]%Q))) as [H _].
  - vm_compute. reflexivity.
  - exact H.
Defined.

(** ** [analyze-audio.py] against [convert_samples] *)

Lemma foldl_analyze_step (chunks : list (list Q)) (acc : list Q) (xs : list nat) (i : nat) :
  foldl analyze_step (acc, xs, i) chunks
  = (acc ++ map (fun chunk => np_sum (np_abs chunk)) chunks,
     xs ++ seq i (length chunks),
     (i + length chunks)%nat).
Proof.
  revert acc xs i. induction chunks as [|c chunks IH]; intros acc xs i; simpl.
  - by rewrite !app_nil_r, Nat.add_0_r.
  - rewrite IH. rewrite <- !(assoc_L (++)). simpl. do 2 f_equal. lia.
Qed.

(** X16. [analyze-audio.py] plots what [svad.py] stores: for a file that
    loads, the energies it computes are the centers of the pattern
    [convert_samples] builds for the same block size (whatever the margin),
    against the positions 0, 1, ...; for a file that does not load it raises
    the same error. *)
Theorem analyze_matches_loading (bs m : Z) (name : string) (data_points : list Q) :
  (loads bs (name, data_points) = true ->
   analyze_main bs data_points
   = Ok (centers (pattern_of bs m (name, data_points)),
         seq 0 (size (pattern_of bs m (name, data_points)))))
  /\ (loads bs (name, data_points) = false ->
      analyze_main bs data_points = Raise (load_error bs)).
Proof.
  split; intros Hl.
  - destruct (pattern_of_chunks bs m (name, data_points) Hl)
      as (chunks & Hsplit & _ & _ & _ & Hp).
    pose proof Hl as [Hbs _]%andb_true_iff. apply negb_true_iff in Hbs.
    unfold analyze_main, floor_div. rewrite Hbs. simpl in *.
    unfold amount_of in Hsplit. simpl in Hsplit. rewrite Hsplit. simpl.
    rewrite foldl_analyze_step. simpl.
    rewrite (centers_of_chunks m _ chunks Hp).
    rewrite (size_of_lookups _ (chunk_entry m <$> chunks))
      by (intros i; by rewrite Hp, list_lookup_fmap).
    by rewrite length_fmap.
  - unfold loads, amount_of in Hl. simpl in Hl.
    unfold analyze_main, floor_div, load_error.
    destruct (bs =? 0) eqn:E; [done|]. simpl in *.
    unfold array_split.
    destruct (Z.of_nat (length data_points) / bs <=? 0) eqn:E'; [done|lia].
Qed.

(** ** The command line *)

Lemma log_levels_known (level : string) :
  is_Some (log_levels !! level)
  <-> level ∈ ["NOTSET"; "DEBUG"; "INFO"; "WARN"; "ERROR"; "CRITICAL"].
Proof.
  unfold log_levels. rewrite !lookup_insert_is_Some', lookup_empty.
  rewrite !elem_of_cons, elem_of_nil.
  split; [intros H|intros H]; repeat destruct H as [H|H]; subst; auto 10.
  - by destruct H.
  - done.
Qed.

(** X17. [__init__] returns an object only with a log level that is a key of
    [log_levels]; with any other level, reached when the options parse, it
    ends in [KeyError].  The level "warning" that the usage text lists is such
    a level: the key is "WARN". *)
Theorem log_level_checked (isabs : string -> bool) (abspath : string -> string)
    (isdir : string -> bool) (opts : list (string * string)) :
  let levels := ["NOTSET"; "DEBUG"; "INFO"; "WARN"; "ERROR"; "CRITICAL"] in
  let start :=
    if negb (isabs (a_sample_path default_args))
    then set_sample_path default_args (abspath (a_sample_path default_args))
    else default_args in
  (forall args, init_args isabs abspath isdir opts = Started args ->
     a_log_level args ∈ levels)
  /\ (forall args, parse_opts isabs abspath isdir start opts = Started args ->
        a_log_level args ∉ levels ->
        init_args isabs abspath isdir opts = Halted KeyError)
  /\ init_args isabs abspath isdir [("-l", "warning")] = Halted KeyError.
Proof.
  intros levels start. split; [|split].
  - intros args Hinit. unfold init_args in Hinit. fold start in Hinit.
    destruct (parse_opts isabs abspath isdir start opts) as [self|h]; [|done].
    simpl in Hinit. unfold init_logger in Hinit.
    destruct (log_levels !! a_log_level self) as [level|] eqn:Hlevel; [|done].
    simpl in Hinit. injection Hinit as <-.
    apply log_levels_known. by eexists.
  - intros args Hparse Hnot. unfold init_args. fold start. rewrite Hparse. simpl.
    unfold init_logger.
    destruct (log_levels !! a_log_level args) as [level|] eqn:Hlevel; [|done].
    destruct Hnot. apply log_levels_known. by eexists.
  - reflexivity.
Qed.

Lemma handle_opt_buffer_size (isabs : string -> bool) (abspath : string -> string)
    (isdir : string -> bool) (self self' : Args) (opt : string * string) :
  handle_opt isabs abspath isdir self opt = Started self' ->
  if one_of (fst opt) "-b" "--buffer-size"
  then a_buffer_size self' = PStr (snd opt)
  else a_buffer_size self' = a_buffer_size self.
Proof.
  destruct opt as [operator argument]. unfold handle_opt. simpl.
  destruct (one_of operator "-s" "--sample_path") eqn:Es.
  { destruct (isdir _); [|done]. intros H. injection H as <-.
    destruct (one_of operator "-b" "--buffer-size") eqn:Eb; [|done].
    unfold one_of in *.
    apply orb_true_iff in Es as [E|E]; apply String.eqb_eq in E; subst; done. }
  destruct (one_of operator "-r" "--sample_rate") eqn:Er.
  { intros H. injection H as <-.
    destruct (one_of operator "-b" "--buffer-size") eqn:Eb; [|done].
    unfold one_of in *.
    apply orb_true_iff in Er as [E|E]; apply String.eqb_eq in E; subst; done. }
  destruct (one_of operator "-b" "--buffer-size") eqn:Eb.
  { intros H. by injection H as <-. }
  destruct (one_of operator "-e" "--error_margin"); [intros H; by injection H as <-|].
  destruct (one_of operator "-l" "--log_level"); [intros H; by injection H as <-|].
  destruct (one_of operator "-v" "--verbose"); [intros H; by injection H as <-|].
  destruct (one_of operator "-h" "--help"); [done|].
  intros H. by injection H as <-.
Qed.

Lemma parse_opts_buffer_size (isabs : string -> bool) (abspath : string -> string)
    (isdir : string -> bool) (opts : list (string * string)) (self self' : Args) :
  parse_opts isabs abspath isdir self opts = Started self' ->
  (Forall (fun opt => one_of (fst opt) "-b" "--buffer-size" = false) opts ->
   a_buffer_size self' = a_buffer_size self)
  /\ (Exists (fun opt => one_of (fst opt) "-b" "--buffer-size" = true) opts ->
      exists x, a_buffer_size self' = PStr x).
Proof.
  revert self. induction opts as [|opt opts IH]; intros self Hparse; simpl in Hparse.
  - injection Hparse as <-. split; [done|]. intros H. by apply Exists_nil in H.
  - destruct (handle_opt isabs abspath isdir self opt) as [self1|h] eqn:Hopt; [|done].
    simpl in Hparse. apply handle_opt_buffer_size in Hopt.
    destruct (IH self1 Hparse) as [Hnone Hsome]. split.
    + intros Hall. inversion Hall as [|? ? Hb Hrest]; subst.
      rewrite Hb in Hopt. rewrite (Hnone Hrest). done.
    + intros Hex.
      destruct (decide (Exists (fun opt => one_of opt.1 "-b" "--buffer-size" = true) opts))
        as [Hlater|Hnot]; [by apply Hsome|].
      apply Exists_cons in Hex as [Hhere|Hlater]; [|done].
      rewrite Hhere in Hopt. exists (snd opt).
      rewrite Hnone; [done|].
      apply Forall_forall. intros o Ho.
      apply not_true_is_false. intros Htrue. apply Hnot.
      apply Exists_exists. by exists o.
Qed.

(** X18. The long option [--buffer_size], the spelling [getopt] is given and
    returns, changes nothing: the loop tests for "--buffer-size", so when no
    option is "-b" (or "--buffer-size") the block size stays the 1024 of
    [config.py], whatever the other options are. *)
Theorem long_buffer_size_ignored (isabs : string -> bool) (abspath : string -> string)
    (isdir : string -> bool) (opts : list (string * string)) (args : Args) :
  Forall (fun opt => fst opt <> "-b" /\ fst opt <> "--buffer-size") opts ->
  init_args isabs abspath isdir opts = Started args ->
  a_buffer_size args = PInt 1024.
Proof.
  intros Hall Hinit. unfold init_args in Hinit.
  destruct (parse_opts isabs abspath isdir _ opts) as [self|h] eqn:Hparse; [|done].
  simpl in Hinit. destruct (init_logger self); [|done]. simpl in Hinit.
  injection Hinit as <-.
  apply parse_opts_buffer_size in Hparse as [Hnone _].
  rewrite Hnone.
  - by destruct (negb (isabs (a_sample_path default_args))).
  - eapply Forall_impl; [exact Hall|]. intros [operator argument] [H1 H2]. simpl in *.
    unfold one_of. apply orb_false_iff. split; by apply String.eqb_neq.
Qed.

Lemma long_buffer_size_ignored_witness :
  a_buffer_size
    (set_sample_path default_args "/home/svad/samples") = PInt 1024.
Proof.
  apply (long_buffer_size_ignored (fun _ => false) (fun p => String.append "/home/svad/" p)
           (fun _ => true) [("--buffer_size", "512")]).
  - repeat constructor; simpl; discriminate.
  - reflexivity.
Defined.

(** ** Loading with settings from the command line *)






(** X20. A block size given with [-b] is kept as the string of the command
    line, and an integer cannot be divided by a string: after such an option,
    loading raises [TypeError] at the first file, whatever the string spells. *)
Theorem buffer_size_option_breaks_loading (isabs : string -> bool)
    (abspath : string -> string) (isdir : string -> bool)
    (int_of_str : string -> option Z) (opts : list (string * string)) (args : Args)
    (file : string * list Q) (files : list (string * list Q)) :
  Exists (fun opt => fst opt = "-b") opts ->
  init_args isabs abspath isdir opts = Started args ->
  convert_samples_t int_of_str (t_init args) (file :: files) = TRaise TypeError.
Proof.
  intros Hex Hinit. unfold init_args in Hinit.
  destruct (parse_opts isabs abspath isdir _ opts) as [self|h] eqn:Hparse; [|done].
  simpl in Hinit. destruct (init_logger self); [|done]. simpl in Hinit.
  injection Hinit as <-.
  apply parse_opts_buffer_size in Hparse as [_ Hsome].
  destruct Hsome as [x Hx].
  { eapply Exists_impl; [exact Hex|]. intros [operator argument] Hop. simpl in *.
    by subst. }
  destruct file as [name data]. simpl. unfold convert_sample_t. simpl.
  by rewrite Hx.
Qed.

Lemma buffer_size_option_breaks_loading_witness :
  convert_samples_t (fun _ => Some 1024)
    (t_init (set_buffer_size (set_sample_path default_args "/home/svad/samples")
               (PStr "1024")))
    [demo_file] = TRaise TypeError.
Proof.
  apply (buffer_size_option_breaks_loading (fun _ => false)
           (fun p => String.append "/home/svad/" p) (fun _ => true) (fun _ => Some 1024)
           [("-b", "1024")]).
  - constructor. reflexivity.
  - reflexivity.
Defined.

(** X21. With a margin given on the command line that spells no integer,
    loading fails at the first file: with [ZeroDivisionError] when the block
    size is 0, with [ValueError] otherwise. *)
Theorem unparsable_margin_fails (int_of_str : string -> option Z) (self : TSVAD)
    (bs : Z) (s : string) (file : string * list Q) (files : list (string * list Q)) :
  a_buffer_size (t_args self) = PInt bs ->
  a_error_margin (t_args self) = PStr s ->
  int_of_str s = None ->
  convert_samples_t int_of_str self (file :: files) = TRaise (Std (load_error bs)).
Proof.
  intros Hbs Hm Hnone. destruct file as [name data]. simpl.
  unfold convert_sample_t, py_len_div, floor_div, load_error. simpl.
  rewrite Hbs. destruct (bs =? 0); simpl; [done|].
  unfold update_max_chunks_t. simpl.
  destruct (Z.of_nat (length data) / bs >? t_max_chunks self); simpl.
  { rewrite Hm. simpl. by rewrite Hnone. }
  destruct (Z_le_gt_dec (Z.of_nat (length data) / bs) 0) as [Hle|Hgt].
  - unfold array_split. destruct (Z.of_nat (length data) / bs <=? 0) eqn:E; [done|lia].
  - destruct (array_split_ok data (Z.of_nat (length data) / bs) ltac:(lia))
      as (chunks & -> & Hlen & _).
    simpl. destruct chunks as [|c chunks]; [simpl in Hlen; lia|].
    simpl. rewrite Hm. simpl. by rewrite Hnone.
Qed.

Lemma unparsable_margin_fails_witness :
  convert_samples_t (fun _ => None)
    (t_init (set_error_margin default_args (PStr "5%"))) [demo_file]
  = TRaise (Std ValueError).
Proof.
  apply (unparsable_margin_fails (fun _ => None)
           (t_init (set_error_margin default_args (PStr "5%"))) 1024 "5%");
    reflexivity.
Defined.

(** ** How the options can stop [__init__] *)

Lemma handle_opt_halted (isabs : string -> bool) (abspath : string -> string)
    (isdir : string -> bool) (self : Args) (operator argument : string) (h : halt) :
  handle_opt isabs abspath isdir self (operator, argument) = Halted h ->
  (h = SystemExit /\ one_of operator "-h" "--help" = true)
  \/ (h = NameError /\ one_of operator "-s" "--sample_path" = true
      /\ isdir (resolved isabs abspath argument) = false).
Proof.
  unfold handle_opt, resolved.
  destruct (one_of operator "-s" "--sample_path").
  { destruct (isdir _) eqn:Hdir; [done|]. intros H. injection H as <-. by right. }
  destruct (one_of operator "-r" "--sample_rate"); [done|].
  destruct (one_of operator "-b" "--buffer-size"); [done|].
  destruct (one_of operator "-e" "--error_margin"); [done|].
  destruct (one_of operator "-l" "--log_level"); [done|].
  destruct (one_of operator "-v" "--verbose"); [done|].
  destruct (one_of operator "-h" "--help"); [|done].
  intros H. injection H as <-. by left.
Qed.

Lemma handle_opt_started (isabs : string -> bool) (abspath : string -> string)
    (isdir : string -> bool) (self : Args) (operator argument : string) :
  one_of operator "-h" "--help" = false ->
  (one_of operator "-s" "--sample_path" = true ->
   isdir (resolved isabs abspath argument) = true) ->
  exists self', handle_opt isabs abspath isdir self (operator, argument) = Started self'.
Proof.
  intros Hhelp Hpath. unfold handle_opt. fold (resolved isabs abspath argument).
  destruct (one_of operator "-s" "--sample_path"); [rewrite Hpath by done; by eexists|].
  destruct (one_of operator "-r" "--sample_rate"); [by eexists|].
  destruct (one_of operator "-b" "--buffer-size"); [by eexists|].
  destruct (one_of operator "-e" "--error_margin"); [by eexists|].
  destruct (one_of operator "-l" "--log_level"); [by eexists|].
  destruct (one_of operator "-v" "--verbose"); [by eexists|].
  rewrite Hhelp. by eexists.
Qed.

(** X22. The loop over the options stops only at a help option, with
    [SystemExit], or at a sample path that is no directory, and then with
    [NameError] (the message names [sample_path], which is not bound there)
    and not with the exit that follows the message; the options before the
    one it stops at have been applied.  With no such option it runs through. *)
Theorem options_halt (isabs : string -> bool) (abspath : string -> string)
    (isdir : string -> bool) (opts : list (string * string)) (self : Args) :
  (forall h, parse_opts isabs abspath isdir self opts = Halted h ->
     exists pre operator argument post self1,
       opts = pre ++ (operator, argument) :: post
       /\ parse_opts isabs abspath isdir self pre = Started self1
       /\ ((h = SystemExit /\ one_of operator "-h" "--help" = true)
           \/ (h = NameError /\ one_of operator "-s" "--sample_path" = true
               /\ isdir (resolved isabs abspath argument) = false)))
  /\ (Forall (fun opt =>
                one_of (fst opt) "-h" "--help" = false
                /\ (one_of (fst opt) "-s" "--sample_path" = true ->
                    isdir (resolved isabs abspath (snd opt)) = true)) opts ->
      exists self', parse_opts isabs abspath isdir self opts = Started self').
Proof.
  split.
  - revert self. induction opts as [|[operator argument] opts IH]; intros self h Hhalt;
      cbn [parse_opts] in Hhalt; [done|].
    destruct (handle_opt isabs abspath isdir self (operator, argument))
      as [self1|h1] eqn:Hopt; cbn [and_then] in Hhalt.
    + destruct (IH self1 h Hhalt) as (pre & op & arg & post & s & -> & Hpre & Hwhy).
      exists ((operator, argument) :: pre), op, arg, post, s.
      split; [done|]. split; [|done]. cbn [app parse_opts]. by rewrite Hopt.
    + injection Hhalt as ->.
      exists [], operator, argument, opts, self. split; [done|]. split; [done|].
      by apply (handle_opt_halted isabs abspath isdir self).
  - revert self. induction opts as [|[operator argument] opts IH]; intros self Hall;
      cbn [parse_opts].
    + by eexists.
    + inversion Hall as [|? ? [Hhelp Hpath] Hrest]; subst. cbn [fst snd] in *.
      destruct (handle_opt_started isabs abspath isdir self operator argument Hhelp Hpath)
        as [self1 ->].
      cbn [and_then]. by apply IH.
Qed.

Lemma handle_opt_sample_path (isabs : string -> bool) (abspath : string -> string)
    (isdir : string -> bool) (self self' : Args) (opt : string * string) :
  handle_opt isabs abspath isdir self opt = Started self' ->
  a_sample_path self' = a_sample_path self \/ isdir (a_sample_path self') = true.
Proof.
  destruct opt as [operator argument]. unfold handle_opt.
  destruct (one_of operator "-s" "--sample_path").
  { destruct (isdir _) eqn:Hdir; [|done]. intros H. injection H as <-. by right. }
  destruct (one_of operator "-r" "--sample_rate"); [intros H; injection H as <-; by left|].
  destruct (one_of operator "-b" "--buffer-size"); [intros H; injection H as <-; by left|].
  destruct (one_of operator "-e" "--error_margin"); [intros H; injection H as <-; by left|].
  destruct (one_of operator "-l" "--log_level"); [intros H; injection H as <-; by left|].
  destruct (one_of operator "-v" "--verbose"); [intros H; injection H as <-; by left|].
  destruct (one_of operator "-h" "--help"); [done|].
  intros H. injection H as <-. by left.
Qed.

(** X23. The sample path of the object [__init__] returns is the default
    "samples" made absolute, which nothing checks, or a path given with [-s]
    that is a directory. *)
Theorem sample_path_checked (isabs : string -> bool) (abspath : string -> string)
    (isdir : string -> bool) (opts : list (string * string)) (args : Args) :
  init_args isabs abspath isdir opts = Started args ->
  a_sample_path args = resolved isabs abspath "samples"
  \/ isdir (a_sample_path args) = true.
Proof.
  intros Hinit. unfold init_args in Hinit.
  destruct (parse_opts isabs abspath isdir _ opts) as [self|h] eqn:Hparse; [|done].
  simpl in Hinit. destruct (init_logger self); [|done]. simpl in Hinit.
  injection Hinit as <-.
  assert (Hinv : forall opts s s',
            parse_opts isabs abspath isdir s opts = Started s' ->
            a_sample_path s' = a_sample_path s \/ isdir (a_sample_path s') = true).
  { clear. induction opts as [|opt opts IH]; intros s s' Hp; simpl in Hp.
    - injection Hp as <-. by left.
    - destruct (handle_opt isabs abspath isdir s opt) as [s1|h] eqn:Hopt; [|done].
      simpl in Hp. apply handle_opt_sample_path in Hopt.
      destruct (IH s1 s' Hp) as [Heq|Hdir]; [|by right].
      rewrite Heq. destruct Hopt as [->|Hdir]; [by left|by right]. }
  destruct (Hinv _ _ _ Hparse) as [Heq|Hdir]; [|by right].
  left. rewrite Heq. unfold resolved. simpl.
  by destruct (isabs "samples").
Qed.

Lemma sample_path_checked_witness :
  a_sample_path (set_sample_path default_args "/data/refs") = "/home/svad/samples"
  \/ String.eqb (a_sample_path (set_sample_path default_args "/data/refs")) "/data/refs"
     = true.
Proof.
  apply (sample_path_checked (fun p => String.eqb p "/data/refs")
           (fun p => String.append "/home/svad/" p)
           (fun p => String.eqb p "/data/refs") [("-s", "/data/refs")]).
  reflexivity.
Defined.
